(** * Film scanner: transform pipeline, frame detector, output counter and scan queue

    A shallow embedding of [film_scanner.py] (class [FilmScannerApp]) and of the
    Pillow / NumPy routines it calls, followed by the properties of the
    transform pipeline, the frame detector, the filename counter and the scan
    queue.

    Conventions of the embedding.
    - Python integers are [Z]; list indices are [nat] or [Z] as convenient.
      The scan counter, which starts at 1 and is only ever incremented, is
      an [N].
    - The float settings (brightness, contrast, exposure) are rationals [Q],
      a Python float being the rational it denotes.  The pixel arithmetic
      of the adjustments is the floating-point arithmetic of the libraries:
      [ImagingBlend] and the NumPy exposure expression work in single
      precision, with the operations of [SpecFloat] at precision 24; a
      comparison or a cast of a float is taken on its value.
    - Comparisons of an integer count against [n * 0.1] are written
      [10 * count > n], which is what the float comparison decides for
      every [n] below 2^53.  The detector's threshold [mean + 0.5 * std] is
      compared with a sample in exact arithmetic; NumPy evaluates it in
      double precision, so the two agree unless a sample lies within the
      rounding error of the threshold.
    - A Python exception is the [Raise] case of [result]; [try/except] is a
      [match] on it.
    - An image is its mode, its size and its rows of pixels, a pixel being the
      list of its band samples (0..255). *)

From Stdlib Require Import String Ascii.
From Stdlib Require Import ZArith QArith Qround Lqa List Sorted Bool Lia Arith.
From Stdlib Require Import DecimalString DecimalN.
From Stdlib Require Import Floats.SpecFloat.
Import ListNotations.

Local Open Scope Z_scope.

(* ================================================================== *)
(** ** Exceptions *)

Inductive exn : Type :=
| ValueError (msg : string)
| MemoryError
| DeviceError (msg : string)
| OSError (msg : string)
| ScanFailed (cause : exn).

Inductive result (A : Type) : Type :=
| Ok (a : A)
| Raise (e : exn).

Arguments Ok {A} a.
Arguments Raise {A} e.

Definition bind {A B : Type} (r : result A) (k : A -> result B) : result B :=
  match r with
  | Ok a => k a
  | Raise e => Raise e
  end.

Notation "x <- r ;; k" := (bind r (fun x => k))
  (at level 61, r at next level, right associativity).

(* ================================================================== *)
(** ** Floats *)

Module fp.

(** Truncation toward zero, the C conversion of a float to an integer. *)
Definition Qtrunc (x : Q) : Z :=
  if Qle_bool 0 x then Qfloor x else Qceiling x.

(** An integer as a float.  The samples and their differences are below
    2^24, so the float has their value in either precision. *)
Definition of_Z (z : Z) : spec_float :=
  match z with
  | Z0 => S754_zero false
  | Zpos p => S754_finite false p 0
  | Zneg p => S754_finite true p 0
  end.

(** The value of a finite float. *)
Definition to_Q (x : spec_float) : Q :=
  match x with
  | S754_finite s m e =>
      let z := if s then Zneg m else Zpos m in
      match e with
      | Z0 => inject_Z z
      | Zpos p => inject_Z (z * Zpos (2 ^ p))
      | Zneg p => z # (2 ^ p)
      end
  | _ => 0
  end.

Definition is_finite (x : spec_float) : bool :=
  match x with
  | S754_zero _ | S754_finite _ _ _ => true
  | _ => false
  end.

(** The double nearest to a rational: the Python float of a literal. *)
Definition of_Q64 (q : Q) : spec_float :=
  SFdiv 53 1024 (of_Z (Qnum q)) (of_Z (Zpos (Qden q))).

(** The single-precision float nearest to a rational. *)
Definition of_Q32 (q : Q) : spec_float :=
  SFdiv 24 128 (of_Z (Qnum q)) (of_Z (Zpos (Qden q))).

(** The cast of a double to a C [float] or a NumPy [float32]. *)
Definition to_f32 (x : spec_float) : spec_float :=
  match x with
  | S754_finite _ _ _ => of_Q32 (to_Q x)
  | _ => x
  end.

Definition add64 : spec_float -> spec_float -> spec_float := SFadd 53 1024.
Definition mul32 : spec_float -> spec_float -> spec_float := SFmul 24 128.
Definition add32 : spec_float -> spec_float -> spec_float := SFadd 24 128.

(** [x <= q], [x >= q] and [x == q] on the value of [x]; every comparison
    with a NaN is false. *)
Definition leb_Q (x : spec_float) (q : Q) : bool :=
  match x with
  | S754_nan => false
  | S754_infinity s => s
  | _ => Qle_bool (to_Q x) q
  end.

Definition geb_Q (x : spec_float) (q : Q) : bool :=
  match x with
  | S754_nan => false
  | S754_infinity s => negb s
  | _ => Qle_bool q (to_Q x)
  end.

Definition eqb_Q (x : spec_float) (q : Q) : bool :=
  match x with
  | S754_nan | S754_infinity _ => false
  | _ => Qeq_bool (to_Q x) q
  end.

(** The integer part of a float.  C leaves the cast of a NaN or of an
    infinity undefined; the conversion instruction of x86-64 leaves a low
    byte of 0. *)
Definition trunc (x : spec_float) : Z :=
  match x with
  | S754_finite _ _ _ => Qtrunc (to_Q x)
  | _ => 0
  end.

(** [(UINT8) t] *)
Definition cast_uint8 (t : spec_float) : Z := trunc t mod 256.

(** [t <= 0 ? 0 : t >= 255 ? 255 : (UINT8) t], which is also
    [np.clip(t, 0, 255).astype(np.uint8)]. *)
Definition clip_uint8 (t : spec_float) : Z :=
  if leb_Q t 0 then 0
  else if geb_Q t 255 then 255
  else trunc t.

End fp.

(* ================================================================== *)
(** ** Images *)

(** The three modes a transfer can have: the application asks the device for
    [TWPT_RGB], [TWPT_GRAY] or [TWPT_BW]. *)
Inductive mode : Type := Mode1 | ModeL | ModeRGB.

Definition mode_eqb (a b : mode) : bool :=
  match a, b with
  | Mode1, Mode1 | ModeL, ModeL | ModeRGB, ModeRGB => true
  | _, _ => false
  end.

Definition bands (m : mode) : nat :=
  match m with
  | Mode1 | ModeL => 1
  | ModeRGB => 3
  end.

Definition pixel : Type := list Z.

Record image : Type := mkImage {
  im_mode : mode;
  width : Z;
  height : Z;
  im_data : list (list pixel)
}.

Definition map_samples (f : Z -> Z) (rows : list (list pixel)) : list (list pixel) :=
  map (map (map f)) rows.

Definition sample_ok (m : mode) (v : Z) : bool :=
  match m with
  | Mode1 => (v =? 0) || (v =? 255)
  | _ => (0 <=? v) && (v <=? 255)
  end.

(** Shape and range of the pixel data: [height] rows of [width] pixels of
    [bands] samples each. *)
Definition wf_image (im : image) : bool :=
  (0 <=? width im) && (0 <=? height im) &&
  (Z.of_nat (length (im_data im)) =? height im) &&
  forallb (fun row =>
    (Z.of_nat (length row) =? width im) &&
    forallb (fun px =>
      Nat.eqb (length px) (bands (im_mode im)) &&
      forallb (sample_ok (im_mode im)) px) row) (im_data im).

(** [image.copy()] *)
Definition copy (im : image) : image := im.

(* ------------------------------------------------------------------ *)
(** *** [PIL.Image] *)

Module Image.

(** [Image.new(mode, size, color)]: a solid image. *)
Definition new (m : mode) (w h : Z) (color : Z) : image :=
  mkImage m w h (repeat (repeat (repeat color (bands m)) (Z.to_nat w)) (Z.to_nat h)).

(** The [alpha] of [ImagingBlend]: the Python float, cast to a C [float]. *)
Definition alpha32 (alpha : Q) : spec_float := fp.to_f32 (fp.of_Q64 alpha).

(** One sample of [ImagingBlend], [in1 + alpha * (in2 - in1)] in single
    precision: interpolation for [0 <= alpha <= 1], where the value is cast
    to [UINT8]; extrapolation with clipping otherwise. *)
Definition blend_sample (alpha : spec_float) (a b : Z) : Z :=
  let temp := fp.add32 (fp.of_Z a) (fp.mul32 alpha (fp.of_Z (b - a))) in
  if fp.geb_Q alpha 0 && fp.leb_Q alpha 1 then fp.cast_uint8 temp
  else fp.clip_uint8 temp.

Fixpoint zip_with {A B C : Type} (f : A -> B -> C) (l1 : list A) (l2 : list B) : list C :=
  match l1, l2 with
  | a :: l1', b :: l2' => f a b :: zip_with f l1' l2'
  | _, _ => []
  end.

(** [Image.blend(im1, im2, alpha)]: [ImagingBlend] refuses mode "1"
    ("image has wrong mode") and images of different mode or size; a
    float [alpha] of 0 or 1 is a copy shortcut. *)
Definition blend (im1 im2 : image) (alpha : Q) : result image :=
  if mode_eqb (im_mode im1) Mode1 || mode_eqb (im_mode im2) Mode1 then
    Raise (ValueError "image has wrong mode")
  else if negb (mode_eqb (im_mode im1) (im_mode im2) &&
                (width im1 =? width im2) && (height im1 =? height im2)) then
    Raise (ValueError "images do not match")
  else if fp.eqb_Q (alpha32 alpha) 0 then Ok (copy im1)
  else if fp.eqb_Q (alpha32 alpha) 1 then Ok (copy im2)
  else
    Ok (mkImage (im_mode im1) (width im1) (height im1)
          (zip_with (zip_with (zip_with (blend_sample (alpha32 alpha))))
             (im_data im1) (im_data im2))).

(** Luma of one pixel, [L24(rgb) >> 16] of [Convert.c]; a bilevel sample is
    stored as 0 or 255 and is its own luma. *)
Definition luma (m : mode) (px : pixel) : Z :=
  match m, px with
  | ModeRGB, [r; g; b] => Z.shiftr (r * 19595 + g * 38470 + b * 7471 + 32768) 16
  | _, v :: _ => v
  | _, [] => 0
  end.

(** [image.convert("L")] *)
Definition convert_L (im : image) : image :=
  mkImage ModeL (width im) (height im)
    (map (map (fun px => [luma (im_mode im) px])) (im_data im)).

(** [Image.new("L", size, v).convert(mode)] for the two modes [blend] accepts. *)
Definition solid_gray (m : mode) (w h : Z) (v : Z) : image :=
  new m w h v.

End Image.

(* ------------------------------------------------------------------ *)
(** *** [PIL.ImageOps] *)

Module ImageOps.

(** [ImageOps.mirror]: left to right. *)
Definition mirror (im : image) : image :=
  mkImage (im_mode im) (width im) (height im) (map (@rev pixel) (im_data im)).

(** [ImageOps.flip]: top to bottom. *)
Definition flip (im : image) : image :=
  mkImage (im_mode im) (width im) (height im) (rev (im_data im)).

(** [ImageOps.invert]: the lookup table [255 - v] on every band. *)
Definition invert (im : image) : image :=
  mkImage (im_mode im) (width im) (height im)
    (map_samples (fun v => 255 - v) (im_data im)).

(** [ImageOps.grayscale] is [image.convert("L")]. *)
Definition grayscale (im : image) : image := Image.convert_L im.

End ImageOps.

(* ------------------------------------------------------------------ *)
(** *** [PIL.ImageStat] and [PIL.ImageEnhance] *)

Module ImageEnhance.

Definition sum_samples (rows : list (list pixel)) : Z :=
  fold_right (fun row acc =>
    fold_right (fun px acc' => fold_right Z.add acc' px) acc row) 0 rows.

Definition count_pixels (rows : list (list pixel)) : Z :=
  fold_right (fun row acc => Z.of_nat (length row) + acc) 0 rows.

(** [int(ImageStat.Stat(image.convert("L")).mean[0] + 0.5)]: the mean luma
    rounded to the nearest integer; [ImageStat] gives a mean of 0 to an
    image without pixels.  The quotient and the sum are taken on doubles in
    Pillow; on an image of fewer than 2^40 pixels their integer part is the
    integer computed here. *)
Definition mean_luma (im : image) : Z :=
  let gray := im_data (Image.convert_L im) in
  let n := count_pixels gray in
  if n =? 0 then 0
  else (2 * sum_samples gray + n) / (2 * n).

(** [ImageEnhance.Brightness(image).enhance(factor)]: blend with the black
    image of the same mode and size. *)
Definition brightness (im : image) (factor : Q) : result image :=
  let degenerate := Image.new (im_mode im) (width im) (height im) 0 in
  Image.blend degenerate im factor.

(** [ImageEnhance.Contrast(image).enhance(factor)]: blend with the solid
    gray image whose level is the mean luma of [image]. *)
Definition contrast (im : image) (factor : Q) : result image :=
  let mean := mean_luma im in
  let degenerate := Image.solid_gray (im_mode im) (width im) (height im) mean in
  Image.blend degenerate im factor.

End ImageEnhance.

(* ------------------------------------------------------------------ *)
(** *** [PIL.ImageFilter.MedianFilter(size=3)] *)

Module ImageFilter.

Definition clamp_index (n : nat) (i : Z) : nat :=
  Z.to_nat (Z.max 0 (Z.min i (Z.of_nat n - 1))).

(** Sample [c] of the pixel at column [x], row [y], with the edge replicated
    ([image.expand(1, 1)]). *)
Definition sample_at (rows : list (list pixel)) (x y : Z) (c : nat) : Z :=
  let row := nth (clamp_index (length rows) y) rows [] in
  nth c (nth (clamp_index (length row) x) row []) 0.

Fixpoint insert_sorted (v : Z) (l : list Z) : list Z :=
  match l with
  | [] => [v]
  | h :: t => if v <=? h then v :: l else h :: insert_sorted v t
  end.

Definition sort (l : list Z) : list Z := fold_right insert_sorted [] l.

Definition window3 (rows : list (list pixel)) (x y : Z) (c : nat) : list Z :=
  flat_map (fun dy => map (fun dx => sample_at rows (x + dx) (y + dy) c) [-1; 0; 1])
    [-1; 0; 1].

(** Rank [3 * 3 / 2 = 4] of the sorted window. *)
Definition median3 (rows : list (list pixel)) (x y : Z) (c : nat) : Z :=
  nth 4 (sort (window3 rows x y c)) 0.

Fixpoint mapi_from {A B : Type} (i : nat) (f : nat -> A -> B) (l : list A) : list B :=
  match l with
  | [] => []
  | a :: l' => f i a :: mapi_from (S i) f l'
  end.

Definition mapi {A B : Type} (f : nat -> A -> B) (l : list A) : list B :=
  mapi_from 0 f l.

(** [image.filter(ImageFilter.MedianFilter(size=3))], band by band. *)
Definition median_filter (im : image) : image :=
  let rows := im_data im in
  mkImage (im_mode im) (width im) (height im)
    (mapi (fun y row =>
       mapi (fun x px =>
         mapi (fun c _ => median3 rows (Z.of_nat x) (Z.of_nat y) c) px) row) rows).

End ImageFilter.

(* ------------------------------------------------------------------ *)
(** *** The NumPy exposure expression *)

Module np.

(** [np.array(img)]: a bilevel image becomes a boolean array, every other
    mode keeps its samples. *)
Definition array_sample (m : mode) (v : Z) : Z :=
  match m with
  | Mode1 => if v =? 0 then 0 else 1
  | _ => v
  end.

(** [Image.fromarray(np.clip(np.array(img).astype(float32) * factor, 0, 255)
    .astype(uint8))]: the Python float [factor] enters the product as a
    [float32], the product is a [float32]; a two-dimensional array comes
    back as mode L. *)
Definition scale_clip (im : image) (factor : spec_float) : image :=
  mkImage (match im_mode im with ModeRGB => ModeRGB | _ => ModeL end)
    (width im) (height im)
    (map_samples (fun v =>
       fp.clip_uint8
         (fp.mul32 (fp.of_Z (array_sample (im_mode im) v)) (fp.to_f32 factor)))
       (im_data im)).

(** [np.array(gray)] of a mode-L image: its rows of samples.  The array is a
    fresh allocation of one byte per pixel; [alloc] tells whether the
    allocator can provide that many bytes, and NumPy raises [MemoryError]
    when it cannot. *)
Definition array (alloc : Z -> bool) (gray : image) : result (list (list Z)) :=
  if alloc (width gray * height gray)
  then Ok (map (map (fun px : pixel => nth 0 px 0)) (im_data gray))
  else Raise MemoryError.

Definition size (a : list (list Z)) : Z :=
  fold_right (fun row acc => Z.of_nat (length row) + acc) 0 a.

Definition sum (a : list (list Z)) : Z :=
  fold_right (fun row acc => fold_right Z.add acc row) 0 a.

Definition sum_sq (a : list (list Z)) : Z :=
  fold_right (fun row acc => fold_right (fun v acc' => v * v + acc') acc row) 0 a.

(** [v > np.mean(a) + np.std(a) * 0.5] in exact arithmetic.  With [n]
    samples of sum [s1] and sum of squares [s2], the mean is [s1 / n] and
    the (population) variance [(n s2 - s1^2) / n^2], so that
    [v > mean + std / 2] iff [n v > s1] and [4 (n v - s1)^2 > n s2 - s1^2]. *)
Definition above_mean_plus_half_std (n s1 s2 v : Z) : bool :=
  (s1 <? n * v) && (n * s2 - s1 * s1 <? 4 * ((n * v - s1) * (n * v - s1))).

(** The integer part of [np.mean(a) + np.std(a) * 0.5], that is of
    [(2 s1 + sqrt (n s2 - s1^2)) / (2 n)]: an integer sample is above the
    threshold exactly when it is above its integer part. *)
Definition floor_threshold (n s1 s2 : Z) : Z :=
  (2 * s1 + Z.sqrt (n * s2 - s1 * s1)) / (2 * n).

Definition count_true (l : list bool) : Z :=
  fold_right (fun (b : bool) acc => if b then 1 + acc else acc) 0 l.

(** [np.sum(binary, axis=0)] of an array with [w] columns. *)
Definition sum_axis0 (w : nat) (binary : list (list bool)) : list Z :=
  fold_right (fun row acc =>
    Image.zip_with (fun (b : bool) c => if b then 1 + c else c) row acc)
    (repeat 0 w) binary.

(** [np.sum(region, axis=1)] *)
Definition sum_axis1 (region : list (list bool)) : list Z :=
  map count_true region.

Fixpoint where_from (i : Z) (l : list bool) : list Z :=
  match l with
  | [] => []
  | b :: l' => if b then i :: where_from (i + 1) l' else where_from (i + 1) l'
  end.

(** [np.where(cond)[0]]: the indices at which [cond] holds, ascending. *)
Definition where_true (cond : list bool) : list Z := where_from 0 cond.

End np.

(* ================================================================== *)
(** ** Application state *)

Inductive color_mode_t : Type := Color | Grayscale | BlackWhite.
Inductive file_format_t : Type := TIFF | PNG | JPEG.

(** The Tk variables read by the pipeline and snapshotted by the queue. *)
Record settings : Type := mkSettings {
  resolution : Z;
  color_mode : color_mode_t;
  file_format : file_format_t;
  brightness : Q;
  contrast : Q;
  exposure : Q;
  invert_negative : bool;
  remove_dust : bool;
  rotation_angle : Z;
  flip_horizontal : bool;
  flip_vertical : bool;
  auto_detect : bool
}.

(** [reset_adjustments]: every adjustment back to its identity value. *)
Definition reset_adjustments (s : settings) : settings :=
  mkSettings (resolution s) (color_mode s) (file_format s)
    1%Q 1%Q 0%Q false false 0 false false (auto_detect s).

(* ================================================================== *)
(** ** Transform pipeline *)

(** The body of the [try] block of [apply_adjustments]. *)
Definition adjustments_body (s : settings) (image_in : image) : result image :=
  let img := copy image_in in
  img <- (if negb (Qeq_bool (brightness s) 1)
          then ImageEnhance.brightness img (brightness s) else Ok img) ;;
  img <- (if negb (Qeq_bool (contrast s) 1)
          then ImageEnhance.contrast img (contrast s) else Ok img) ;;
  img <- (if negb (Qeq_bool (exposure s) 0)
          then
            let exposure_factor := fp.add64 (fp.of_Q64 1) (fp.of_Q64 (exposure s)) in
            Ok (np.scale_clip img exposure_factor)
          else Ok img) ;;
  img <- (if invert_negative s then
            match im_mode img with
            | ModeRGB => Ok (ImageOps.invert img)
            | ModeL => Ok (ImageOps.invert img)
            | _ => Ok img
            end
          else Ok img) ;;
  img <- (if remove_dust s then Ok (ImageFilter.median_filter img) else Ok img) ;;
  Ok img.

(** [apply_adjustments]: any exception of the body is caught by the single
    handler, which reports it and returns the image it was given. *)
Definition apply_adjustments (s : settings) (image_in : image) : image :=
  match adjustments_body s image_in with
  | Ok img => img
  | Raise _ => image_in
  end.

Section Transforms.

(** [Image.rotate(angle, expand=True)] of Pillow, taken as given. *)
Variable rotate : image -> Z -> image.

(** [apply_all_transforms] *)
Definition apply_all_transforms (s : settings) (image_in : image) : image :=
  let img := copy image_in in
  let img := if negb (rotation_angle s =? 0)
             then rotate img (- rotation_angle s) else img in
  let img := if flip_horizontal s then ImageOps.mirror img else img in
  let img := if flip_vertical s then ImageOps.flip img else img in
  apply_adjustments s img.

End Transforms.

(* ================================================================== *)
(** ** Frame detector *)

(** A detected frame, [(left, top, right, bottom)], as handed to
    [Image.crop]: columns [left .. right - 1] and rows [top .. bottom - 1]. *)
Definition frame : Type := (Z * Z * Z * Z)%type.

(** The three variables the column loop of [detect_film_frames] updates. *)
Record scan_state : Type := mkScan {
  in_frame : bool;
  frame_start : Z;
  frames : list frame
}.

Fixpoint enumerate_from {A : Type} (i : Z) (l : list A) : list (Z * A) :=
  match l with
  | [] => []
  | a :: l' => (i, a) :: enumerate_from (i + 1) l'
  end.

Definition enumerate {A : Type} (l : list A) : list (Z * A) := enumerate_from 0 l.

(** [binary[:, a:b]] *)
Definition slice_columns (binary : list (list bool)) (a b : Z) : list (list bool) :=
  map (fun row => firstn (Z.to_nat (b - a)) (skipn (Z.to_nat a) row)) binary.

(** The body of the [elif] branch once the run [frame_start .. i - 1] is
    closed at column [i]: the frame appended to [frames], if any. *)
Definition close_run (image_in : image) (binary : list (list bool))
    (start i : Z) (found : list frame) : list frame :=
  let frame_width := i - start in
  if 100 <? frame_width then
    let frame_region := slice_columns binary start i in
    let row_sums := np.sum_axis1 frame_region in
    let rows_with_content :=
      np.where_true (map (fun row_sum => frame_width <? 10 * row_sum) row_sums) in
    if (100 <? Z.of_nat (length rows_with_content))%Z then
      let top := hd 0 rows_with_content in
      let bottom := last rows_with_content 0 in
      let padding := 10 in
      let left := Z.max 0 (start - padding) in
      let right := Z.min (width image_in) (i + padding) in
      let top := Z.max 0 (top - padding) in
      let bottom := Z.min (height image_in) (bottom + padding) in
      found ++ [(left, top, right, bottom)]
    else found
  else found.

(** One iteration of [for i, col_sum in enumerate(col_sums)]; the column
    threshold is [shape[0] * 0.1]. *)
Definition scan_column (image_in : image) (binary : list (list bool)) (rows : Z)
    (st : scan_state) (ic : Z * Z) : scan_state :=
  let (i, col_sum) := ic in
  if (rows <? 10 * col_sum) && negb (in_frame st) then
    mkScan true i (frames st)
  else if (10 * col_sum <=? rows) && in_frame st then
    mkScan false (frame_start st)
      (close_run image_in binary (frame_start st) i (frames st))
  else st.

Section Detector.

(** Whether NumPy can allocate an array of the given number of bytes. *)
Variable alloc : Z -> bool.

(** The body of the [try] block of [detect_film_frames]. *)
Definition detect_body (image_in : image) : result (list frame) :=
  let gray := ImageOps.grayscale image_in in
  img_array <- np.array alloc gray ;;
  let n := np.size img_array in
  let s1 := np.sum img_array in
  let s2 := np.sum_sq img_array in
  let threshold := np.floor_threshold n s1 s2 in
  let binary := map (map (fun v => threshold <? v)) img_array in
  let col_sums := np.sum_axis0 (Z.to_nat (width gray)) binary in
  let rows := Z.of_nat (length img_array) in
  let final :=
    fold_left (scan_column image_in binary rows) (enumerate col_sums)
      (mkScan false 0 []) in
  Ok (frames final).

(** [detect_film_frames]: the handler turns every exception into the empty
    list. *)
Definition detect_film_frames (image_in : image) : list frame :=
  match detect_body image_in with
  | Ok found => found
  | Raise _ => []
  end.

End Detector.

(** What [_do_scan] saves after detection: the cropped frames when the list
    is not empty, the whole image otherwise. *)
Inductive save_plan : Type :=
| SaveFrames (found : list frame)
| SaveWhole.

Definition plan_after_detection (alloc : Z -> bool) (s : settings) (img : image) : save_plan :=
  if auto_detect s then
    match detect_film_frames alloc img with
    | [] => SaveWhole
    | found => SaveFrames found
    end
  else SaveWhole.

(** A solid rectangle of [fg] on a background of [bg], mode L. *)
Definition rect_row (w x0 rw : nat) (bg fg : Z) : list pixel :=
  repeat [bg] x0 ++ repeat [fg] rw ++ repeat [bg] (w - x0 - rw).

Definition two_rect_row (w xa xb rw : nat) (bg fg : Z) : list pixel :=
  repeat [bg] xa ++ repeat [fg] rw ++ repeat [bg] (xb - xa - rw) ++
  repeat [fg] rw ++ repeat [bg] (w - xb - rw).

(** The 2000 x 1000 sheet with two 400 x 600 rectangles at columns 100 and
    1200, both starting at row [y0]. *)
Definition two_frames_sheet (y0 : nat) (bg fg : Z) : image :=
  mkImage ModeL 2000 1000
    (repeat (repeat [bg] 2000) y0 ++
     repeat (two_rect_row 2000 100 1200 400 bg fg) 600 ++
     repeat (repeat [bg] 2000) (1000 - y0 - 600)).

(** A [w] x [h] sheet whose rows [0 .. band - 1] are bright over the full
    width. *)
Definition full_width_band (w h band : nat) (bg fg : Z) : image :=
  mkImage ModeL (Z.of_nat w) (Z.of_nat h)
    (repeat (repeat [fg] w) band ++ repeat (repeat [bg] w) (h - band)).

(* ================================================================== *)
(** ** Application object *)

(** One entry of [scan_queue]: the settings of the moment it was added and
    its time stamp. *)
Record queue_item : Type := mkItem {
  item : settings;
  timestamp : string
}.

Inductive button_state : Type := NORMAL | DISABLED.

(** The fields of [FilmScannerApp] the queue and the writer use.  [workers]
    counts the threads started on [_process_queue_thread] that have not yet
    left its loop. *)
Record app : Type := mkApp {
  vars : settings;
  auto_increment : bool;
  scan_counter : N;
  scanned_images : list string;
  scan_queue : list queue_item;
  queue_processing : bool;
  queue_paused : bool;
  scanner_ready : bool;
  process_queue_btn : button_state;
  workers : nat
}.

Definition set_vars (v : settings) (a : app) : app :=
  mkApp v (auto_increment a) (scan_counter a) (scanned_images a) (scan_queue a)
    (queue_processing a) (queue_paused a) (scanner_ready a) (process_queue_btn a)
    (workers a).

Definition set_scan_counter (c : N) (a : app) : app :=
  mkApp (vars a) (auto_increment a) c (scanned_images a) (scan_queue a)
    (queue_processing a) (queue_paused a) (scanner_ready a) (process_queue_btn a)
    (workers a).

Definition set_scanned_images (l : list string) (a : app) : app :=
  mkApp (vars a) (auto_increment a) (scan_counter a) l (scan_queue a)
    (queue_processing a) (queue_paused a) (scanner_ready a) (process_queue_btn a)
    (workers a).

Definition set_scan_queue (q : list queue_item) (a : app) : app :=
  mkApp (vars a) (auto_increment a) (scan_counter a) (scanned_images a) q
    (queue_processing a) (queue_paused a) (scanner_ready a) (process_queue_btn a)
    (workers a).

Definition set_queue_processing (b : bool) (a : app) : app :=
  mkApp (vars a) (auto_increment a) (scan_counter a) (scanned_images a) (scan_queue a)
    b (queue_paused a) (scanner_ready a) (process_queue_btn a) (workers a).

Definition set_queue_paused (b : bool) (a : app) : app :=
  mkApp (vars a) (auto_increment a) (scan_counter a) (scanned_images a) (scan_queue a)
    (queue_processing a) b (scanner_ready a) (process_queue_btn a) (workers a).

Definition set_process_queue_btn (b : button_state) (a : app) : app :=
  mkApp (vars a) (auto_increment a) (scan_counter a) (scanned_images a) (scan_queue a)
    (queue_processing a) (queue_paused a) (scanner_ready a) b (workers a).

Definition set_workers (n : nat) (a : app) : app :=
  mkApp (vars a) (auto_increment a) (scan_counter a) (scanned_images a) (scan_queue a)
    (queue_processing a) (queue_paused a) (scanner_ready a) (process_queue_btn a) n.

(* ================================================================== *)
(** ** Output writer: file names *)

Local Open Scope string_scope.

Definition ext_map (f : file_format_t) : string :=
  match f with
  | TIFF => "tif"
  | PNG => "png"
  | JPEG => "jpg"
  end.

Fixpoint zeros (k : nat) : string :=
  match k with
  | O => ""
  | S k' => String "0" (zeros k')
  end.

(** The format specification [:04d] on a non-negative integer: its decimal
    digits, padded with zeros on the left to four characters. *)
Definition format_04d (n : N) : string :=
  let digits := NilEmpty.string_of_uint (N.to_uint n) in
  zeros (4 - String.length digits) ++ digits.

Definition counter_name (c : N) (f : file_format_t) : string :=
  "film_scan_" ++ format_04d c ++ "." ++ ext_map f.

(** [generate_filename]; [now] is [datetime.now().strftime(...)]. *)
Definition generate_filename (now : string) (a : app) : string * app :=
  let timestamp := now in
  let ext := ext_map (file_format (vars a)) in
  if auto_increment a then
    let filename := counter_name (scan_counter a) (file_format (vars a)) in
    (filename, set_scan_counter (scan_counter a + 1)%N a)
  else
    ("film_scan_" ++ timestamp ++ "." ++ ext, a).

(** The single-image tail of [_do_scan] and of [_do_scan_from_queue]: a
    name is generated, the image is written, and the path is recorded once
    the write went through.  [written] is the outcome of [image.save]; the
    generated name is returned next to the outcome. *)
Definition save_single (now : string) (written : bool) (a : app)
    : string * result unit * app :=
  let (filename, a1) := generate_filename now a in
  if written then
    (filename, Ok tt, set_scanned_images (scanned_images a1 ++ [filename]) a1)
  else
    (filename, Raise (OSError "cannot write file"), a1).

Definition set_file_format (f : file_format_t) (v : settings) : settings :=
  mkSettings (resolution v) (color_mode v) f (brightness v) (contrast v)
    (exposure v) (invert_negative v) (remove_dust v) (rotation_angle v)
    (flip_horizontal v) (flip_vertical v) (auto_detect v).

(** A session of single saves: before each one the operator may pick another
    file format; every generated name is collected, written or not. *)
Fixpoint save_session (now : string) (steps : list (file_format_t * bool)) (a : app)
    : list string * app :=
  match steps with
  | [] => ([], a)
  | (f, written) :: rest =>
      let '(filename, _, a1) :=
        save_single now written (set_vars (set_file_format f (vars a)) a) in
      let (names, a2) := save_session now rest a1 in
      (filename :: names, a2)
  end.

Definition is_digit (c : ascii) : bool :=
  let n := nat_of_ascii c in (48 <=? n)%nat && (n <=? 57)%nat.

Fixpoint take_digits (s : string) : string :=
  match s with
  | String c s' => if is_digit c then String c (take_digits s') else ""
  | EmptyString => ""
  end.

Fixpoint drop (k : nat) (s : string) : string :=
  match k, s with
  | S k', String _ s' => drop k' s'
  | _, _ => s
  end.

(** The number written in a counter name, read back from the digits after
    the ten characters of ["film_scan_"]. *)
Definition name_number (name : string) : option N :=
  option_map N.of_uint (NilEmpty.uint_of_string (take_digits (drop 10 name))).

Local Close Scope string_scope.

(* ================================================================== *)
(** ** Scan queue *)

Inductive add_outcome : Type :=
| Added
| InvalidSettings   (* "Resolution must be between 75 and 6400 DPI" *)
| Declined          (* the operator refused to create the directory *)
| QueueError (e : exn).

(** [update_queue_display], as far as the start button goes. *)
Definition update_queue_display (a : app) : app :=
  let count := length (scan_queue a) in
  if (0 <? count)%nat && negb (queue_processing a) then
    set_process_queue_btn NORMAL a
  else
    set_process_queue_btn (if queue_processing a then DISABLED else NORMAL) a.

(** [add_to_queue].  [dir_exists] is [os.path.exists(output_dir)],
    [create] the operator's answer to "Create it now?", [makedirs] the
    outcome of [os.makedirs], [now] the time stamp. *)
Definition add_to_queue (dir_exists create : bool) (makedirs : result unit)
    (now : string) (a : app) : add_outcome * app :=
  if (resolution (vars a) <? 75) || (6400 <? resolution (vars a)) then
    (InvalidSettings, a)
  else
    let enqueue :=
      let queue_item := mkItem (vars a) now in
      (Added, update_queue_display (set_scan_queue (scan_queue a ++ [queue_item]) a)) in
    if negb dir_exists then
      if negb create then (Declined, a)
      else match makedirs with
           | Raise e => (QueueError e, a)
           | Ok _ => enqueue
           end
    else enqueue.

(** [clear_queue]; [confirmed] is the answer to "Clear all items?". *)
Definition clear_queue (confirmed : bool) (a : app) : app :=
  match scan_queue a with
  | [] => a
  | _ => if confirmed then update_queue_display (set_scan_queue [] a) else a
  end.

(** [toggle_pause_queue] *)
Definition toggle_pause_queue (a : app) : app :=
  set_queue_paused (negb (queue_paused a)) a.

(** [process_queue]: the two early returns, then the flags, the button and
    the new thread. *)
Definition process_queue (a : app) : app :=
  match scan_queue a with
  | [] => a
  | _ :: _ =>
      if negb (scanner_ready a) then a
      else
        set_workers (S (workers a))
          (set_process_queue_btn DISABLED
             (set_queue_paused false (set_queue_processing true a)))
  end.

(** [_queue_complete], run on the main loop once the worker is done. *)
Definition _queue_complete (a : app) : app :=
  let a := set_queue_processing false a in
  update_queue_display
    (set_process_queue_btn
       (match scan_queue a with [] => DISABLED | _ => NORMAL end) a).

(** What the environment of a queued scan decides: the rotation of Pillow,
    the allocator of NumPy, the outcome of the device transfer of a job
    ([SetCapability], [RequestAcquire], [XferImageNatively], [Image.open]),
    whether a file of a given name can be written, and the clock. *)
Record world : Type := mkWorld {
  rotate : image -> Z -> image;
  alloc : Z -> bool;
  acquire : queue_item -> result image;
  writable : string -> bool;
  now : string
}.

(** [_apply_queue_settings] *)
Definition _apply_queue_settings (queue_item : queue_item) (a : app) : app :=
  set_vars (item queue_item) a.

(** [_apply_transforms_from_queue]: the stages of the pipeline on the
    settings of the job, without a handler. *)
Definition _apply_transforms_from_queue (w : world) (image_in : image)
    (queue_item : queue_item) : result image :=
  let q := item queue_item in
  let img := copy image_in in
  let img := if negb (rotation_angle q =? 0)
             then rotate w img (- rotation_angle q) else img in
  let img := if flip_horizontal q then ImageOps.mirror img else img in
  let img := if flip_vertical q then ImageOps.flip img else img in
  img <- (if negb (Qeq_bool (brightness q) 1)
          then ImageEnhance.brightness img (brightness q) else Ok img) ;;
  img <- (if negb (Qeq_bool (contrast q) 1)
          then ImageEnhance.contrast img (contrast q) else Ok img) ;;
  img <- (if negb (Qeq_bool (exposure q) 0)
          then
            let exposure_factor := fp.add64 (fp.of_Q64 1) (fp.of_Q64 (exposure q)) in
            Ok (np.scale_clip img exposure_factor)
          else Ok img) ;;
  img <- (if invert_negative q then
            match im_mode img with
            | ModeRGB | ModeL => Ok (ImageOps.invert img)
            | _ => Ok img
            end
          else Ok img) ;;
  img <- (if remove_dust q then Ok (ImageFilter.median_filter img) else Ok img) ;;
  Ok img.

(** [_save_frames_sync]: one file per frame, stopping at the first write
    that fails. *)
Fixpoint _save_frames_sync (w : world) (found : list frame) (a : app)
    : result unit * app :=
  match found with
  | [] => (Ok tt, a)
  | _ :: rest =>
      let (filename, a1) := generate_filename (now w) a in
      if writable w filename then
        _save_frames_sync w rest
          (set_scanned_images (scanned_images a1 ++ [filename]) a1)
      else (Raise (OSError "cannot write file"), a1)
  end.

(** [_do_scan_from_queue]: every exception of the body is raised again as
    "Scan failed: ...". *)
Definition _do_scan_from_queue (w : world) (queue_item : queue_item) (a : app)
    : result unit * app :=
  match acquire w queue_item with
  | Raise e => (Raise (ScanFailed e), a)
  | Ok image0 =>
      match _apply_transforms_from_queue w image0 queue_item with
      | Raise e => (Raise (ScanFailed e), a)
      | Ok img =>
          let found :=
            if auto_detect (item queue_item)
            then detect_film_frames (alloc w) img else [] in
          match found with
          | _ :: _ =>
              match _save_frames_sync w found a with
              | (Raise e, a1) => (Raise (ScanFailed e), a1)
              | r => r
              end
          | [] =>
              let (filename, a1) := generate_filename (now w) a in
              if writable w filename then
                (Ok tt, set_scanned_images (scanned_images a1 ++ [filename]) a1)
              else (Raise (ScanFailed (OSError "cannot write file")), a1)
          end
      end
  end.

(** The [while] loop of [_process_queue_thread] with the queue not paused.
    [queue] is [self.scan_queue], the list the loop reads its head from and
    pops; the result is the local [completed] and the state at the exit. *)
Fixpoint worker_loop (w : world) (queue : list queue_item) (completed : Z) (a : app)
    : Z * app :=
  match queue with
  | [] => (completed, a)
  | queue_item :: rest =>
      if negb (queue_processing a) then (completed, a)
      else
        let completed := completed + 1 in
        let a := _apply_queue_settings queue_item a in
        match _do_scan_from_queue w queue_item a with
        | (Ok _, a1) => worker_loop w rest completed (set_scan_queue rest a1)
        | (Raise _, a1) => (completed, a1)
        end
  end.

(** [_process_queue_thread] followed by the [_queue_complete] it schedules:
    the count handed to [_queue_complete] and the state it leaves. *)
Definition _process_queue_thread (w : world) (a : app) : Z * app :=
  let (completed, a1) := worker_loop w (scan_queue a) 0 a in
  let a2 := set_workers (pred (workers a1)) (set_queue_processing false a1) in
  (completed, _queue_complete a2).

(** What can happen while a worker runs: the operator acts at the window,
    the main loop refreshes the queue display, the worker removes the job it
    has finished. *)
Inductive running_event : Type :=
| ClickProcessQueue
| ClickAddToQueue (dir_exists create : bool) (makedirs : result unit) (now : string)
| ClickClearQueue (confirmed : bool)
| ClickPauseQueue
| ChangeSettings (v : settings)
| RefreshQueueDisplay
| WorkerPop.

(** Tk delivers a click to the command of a button only when the button is
    not disabled. *)
Definition running_step (a : app) (ev : running_event) : app :=
  match ev with
  | ClickProcessQueue =>
      match process_queue_btn a with
      | NORMAL => process_queue a
      | DISABLED => a
      end
  | ClickAddToQueue dir_exists create makedirs now =>
      snd (add_to_queue dir_exists create makedirs now a)
  | ClickClearQueue confirmed => clear_queue confirmed a
  | ClickPauseQueue => toggle_pause_queue a
  | ChangeSettings v => set_vars v a
  | RefreshQueueDisplay => update_queue_display a
  | WorkerPop => set_scan_queue (tl (scan_queue a)) a
  end.

Definition running (evs : list running_event) (a : app) : app :=
  fold_left running_step evs a.

(* ================================================================== *)
(** ** Reference formulas and sample data *)

(** The settings of [__init__]. *)
Definition default_vars : settings :=
  mkSettings 2400 Color TIFF 1%Q 1%Q 0%Q false false 0 false false true.

(** The application after [__init__], with the scanner connected or not. *)
Definition init_app (connected : bool) : app :=
  mkApp default_vars true 1%N [] [] false false connected NORMAL 0.

Definition set_brightness (b : Q) (v : settings) : settings :=
  mkSettings (resolution v) (color_mode v) (file_format v) b (contrast v)
    (exposure v) (invert_negative v) (remove_dust v) (rotation_angle v)
    (flip_horizontal v) (flip_vertical v) (auto_detect v).

Definition set_contrast (c : Q) (v : settings) : settings :=
  mkSettings (resolution v) (color_mode v) (file_format v) (brightness v) c
    (exposure v) (invert_negative v) (remove_dust v) (rotation_angle v)
    (flip_horizontal v) (flip_vertical v) (auto_detect v).

Definition set_invert_negative (b : bool) (v : settings) : settings :=
  mkSettings (resolution v) (color_mode v) (file_format v) (brightness v)
    (contrast v) (exposure v) b (remove_dust v) (rotation_angle v)
    (flip_horizontal v) (flip_vertical v) (auto_detect v).

Definition set_remove_dust (b : bool) (v : settings) : settings :=
  mkSettings (resolution v) (color_mode v) (file_format v) (brightness v)
    (contrast v) (exposure v) (invert_negative v) b (rotation_angle v)
    (flip_horizontal v) (flip_vertical v) (auto_detect v).

Definition set_resolution (r : Z) (v : settings) : settings :=
  mkSettings r (color_mode v) (file_format v) (brightness v)
    (contrast v) (exposure v) (invert_negative v) (remove_dust v)
    (rotation_angle v) (flip_horizontal v) (flip_vertical v) (auto_detect v).

(** Clamp to [0, 255], then drop the fraction. *)
Definition clamp_trunc (x : Q) : Z :=
  if Qle_bool x 0 then 0 else if Qle_bool 255 x then 255 else fp.Qtrunc x.

(** The contrast formula of the specification: the deviation from the
    fixed mid-gray 128 scaled by [c] and clamped, in exact arithmetic. *)
Definition mid_gray_contrast (c : Q) (v : Z) : Z :=
  clamp_trunc (128 + c * inject_Z (v - 128))%Q.

(** A sample whose deviation from the level [pivot] is scaled by [c], in
    single precision: [c] is rounded to a float, the product
    [c * (v - pivot)] is rounded, the sum with [pivot] is rounded; the
    result is truncated toward zero and, for [c] outside [0, 1], clipped to
    [0, 255].  A factor that rounds to 0 or to 1 gives [pivot] or [v]. *)
Definition scale_about (pivot : Z) (c : Q) (v : Z) : Z :=
  let alpha := Image.alpha32 c in
  if fp.eqb_Q alpha 0 then pivot
  else if fp.eqb_Q alpha 1 then v
  else
    let temp := fp.add32 (fp.of_Z pivot) (fp.mul32 alpha (fp.of_Z (v - pivot))) in
    if fp.geb_Q alpha 0 && fp.leb_Q alpha 1 then fp.cast_uint8 temp
    else fp.clip_uint8 temp.

(** A sample multiplied by [b] in single precision: [b] is rounded to a
    float and the product is rounded; the result is truncated toward zero
    and, for [b] above 1 or below 0, clipped to [0, 255]. *)
Definition scale_by (b : Q) (v : Z) : Z :=
  let alpha := Image.alpha32 b in
  if fp.eqb_Q alpha 1 then v
  else
    let temp := fp.mul32 alpha (fp.of_Z v) in
    if fp.geb_Q alpha 0 && fp.leb_Q alpha 1 then fp.cast_uint8 temp
    else fp.clip_uint8 temp.

(** The first two statements of the [try] block of [apply_adjustments],
    the only ones that can raise. *)
Definition brightness_stage (s : settings) (img : image) : result image :=
  if negb (Qeq_bool (brightness s) 1)
  then ImageEnhance.brightness img (brightness s) else Ok img.

Definition contrast_stage (s : settings) (img : image) : result image :=
  if negb (Qeq_bool (contrast s) 1)
  then ImageEnhance.contrast img (contrast s) else Ok img.

(** A bilevel 3 x 3 image: one white speck on black. *)
Definition speck : image :=
  mkImage Mode1 3 3
    [ [[0]; [0]; [0]];
      [[0]; [255]; [0]];
      [[0]; [0]; [0]] ].

(** Brightness doubled and dust removal on, everything else at rest. *)
Definition bright_and_dust : settings :=
  set_remove_dust true (set_brightness 2%Q default_vars).

(** A single gray pixel of level 200. *)
Definition gray200 : image := mkImage ModeL 1 1 [ [[200]] ].

(** A two-pixel gray image of mean level 128. *)
Definition gray_pair : image := mkImage ModeL 2 1 [ [[100]; [156]] ].

Definition job (dpi : Z) (stamp : string) : queue_item :=
  mkItem (mkSettings dpi Grayscale TIFF 1%Q 1%Q 0%Q false false 0 false false false)
    stamp.

Definition job1 : queue_item := job 1200 "10:00:01".
Definition job2 : queue_item := job 2400 "10:00:02".
Definition job3 : queue_item := job 3200 "10:00:03".

(** A device whose transfer fails for the job scanned at 2400 DPI and
    delivers a gray pixel for every other job; every file can be written. *)
Definition world_job2_fails : world :=
  mkWorld (fun img _ => img) (fun _ => true)
    (fun q => if resolution (item q) =? 2400
              then Raise (DeviceError "no image data")
              else Ok gray200)
    (fun _ => true) "20240101_100000".

(** A job that doubles the brightness, and a device that delivers the
    bilevel speck for every job. *)
Definition bright_job : queue_item :=
  mkItem (set_brightness 2%Q (item job1)) "10:00:04".

Definition world_speck : world :=
  mkWorld (fun img _ => img) (fun _ => true) (fun _ => Ok speck)
    (fun _ => true) "20240101_100000".

(** The application with the three jobs queued and the scanner connected. *)
Definition three_jobs : app :=
  set_scan_queue [job1; job2; job3] (init_app true).

(** A queue that is already being processed by one worker. *)
Definition already_running : app :=
  process_queue three_jobs.

(** The parameter set at which every stage of the pipeline is skipped. *)
Definition identity_params (s : settings) : bool :=
  (rotation_angle s =? 0) && negb (flip_horizontal s) && negb (flip_vertical s) &&
  Qeq_bool (brightness s) 1 && Qeq_bool (contrast s) 1 && Qeq_bool (exposure s) 0 &&
  negb (invert_negative s) && negb (remove_dust s).

(** The sheet of [full_width_band] with its last column left dark. *)
Definition band_short_of_edge (w h band : nat) (bg fg : Z) : image :=
  mkImage ModeL (Z.of_nat w) (Z.of_nat h)
    (repeat (rect_row w 0 (w - 1) bg fg) band ++ repeat (repeat [bg] w) (h - band)).

(** The names a run of counter-named saves produces from the counter [c],
    one per requested format. *)
Fixpoint names_from (c : N) (formats : list file_format_t) : list string :=
  match formats with
  | [] => []
  | f :: rest => counter_name c f :: names_from (c + 1)%N rest
  end.

(** Counter names are ordered by the number they carry. *)
Definition name_lt (n1 n2 : string) : Prop :=
  match name_number n1, name_number n2 with
  | Some c1, Some c2 => (c1 < c2)%N
  | _, _ => False
  end.

Fixpoint all_digits (s : string) : bool :=
  match s with
  | EmptyString => true
  | String c s' => is_digit c && all_digits s'
  end.

(** The mask [binary] of [detect_film_frames] for a given array. *)
Definition threshold_mask (img_array : list (list Z)) : list (list bool) :=
  let threshold :=
    np.floor_threshold (np.size img_array) (np.sum img_array) (np.sum_sq img_array) in
  map (map (fun v => threshold <? v)) img_array.

(** Every column of the image is active: its count of bright pixels is above
    a tenth of the height. *)
Definition all_columns_active (alloc : Z -> bool) (img : image) : bool :=
  match np.array alloc (ImageOps.grayscale img) with
  | Ok img_array =>
      forallb (fun col_sum => Z.of_nat (length img_array) <? 10 * col_sum)
        (np.sum_axis0 (Z.to_nat (width img)) (threshold_mask img_array))
  | Raise _ => false
  end.

(* ------------------------------------------------------------------ *)
(** *** Further operations of the window and the writer *)

Definition set_rotation_angle (r : Z) (v : settings) : settings :=
  mkSettings (resolution v) (color_mode v) (file_format v) (brightness v)
    (contrast v) (exposure v) (invert_negative v) (remove_dust v) r
    (flip_horizontal v) (flip_vertical v) (auto_detect v).

Definition set_flip_horizontal (b : bool) (v : settings) : settings :=
  mkSettings (resolution v) (color_mode v) (file_format v) (brightness v)
    (contrast v) (exposure v) (invert_negative v) (remove_dust v)
    (rotation_angle v) b (flip_vertical v) (auto_detect v).

Definition set_flip_vertical (b : bool) (v : settings) : settings :=
  mkSettings (resolution v) (color_mode v) (file_format v) (brightness v)
    (contrast v) (exposure v) (invert_negative v) (remove_dust v)
    (rotation_angle v) (flip_horizontal v) b (auto_detect v).

(** [rotate_image]: without a preview image nothing happens; otherwise the
    stored angle becomes [(current + angle) % 360].  [has_preview] is the
    truth value of [self.preview_image_original]. *)
Definition rotate_image (has_preview : bool) (angle : Z) (v : settings) : settings :=
  if negb has_preview then v
  else
    let current := rotation_angle v in
    set_rotation_angle ((current + angle) mod 360) v.

(** [flip_h] *)
Definition flip_h (v : settings) : settings :=
  set_flip_horizontal (negb (flip_horizontal v)) v.

(** [flip_v] *)
Definition flip_v (v : settings) : settings :=
  set_flip_vertical (negb (flip_vertical v)) v.

(** The settings with the rotation and the flips kept and every adjustment
    of [apply_adjustments] at its identity value. *)
Definition geometry_only (v : settings) : settings :=
  mkSettings (resolution v) (color_mode v) (file_format v) 1%Q 1%Q 0%Q false false
    (rotation_angle v) (flip_horizontal v) (flip_vertical v) (auto_detect v).

(** The settings with inversion as the only adjustment and no rotation or
    flip. *)
Definition invert_only : settings := set_invert_negative true default_vars.

Definition frame_left (f : frame) : Z := let '(l, _, _, _) := f in l.
Definition frame_top (f : frame) : Z := let '(_, t, _, _) := f in t.
Definition frame_right (f : frame) : Z := let '(_, _, r, _) := f in r.
Definition frame_bottom (f : frame) : Z := let '(_, _, _, b) := f in b.




(** A frame lies inside the image and is more than 100 pixels wide. *)
Definition frame_fits (img : image) (f : frame) : Prop :=
  0 <= frame_left f /\ 0 <= frame_top f /\
  frame_right f <= width img /\ frame_bottom f <= height img /\
  100 < frame_right f - frame_left f.

(** [f] starts to the left of [g]. *)
Definition left_of (f g : frame) : Prop := frame_left f < frame_left g.

(** What the column loop of the detector keeps true before column [i]. *)
Definition scan_invariant (img : image) (i : Z) (st : scan_state) : Prop :=
  0 <= frame_start st <= i /\
  Forall (fun f => frame_fits img f /\ frame_left f + 100 < i) (frames st) /\
  StronglySorted left_of (frames st) /\
  (in_frame st = true ->
   Forall (fun f => frame_left f + 100 < frame_start st) (frames st)).

(** A queued job whose resolution is in the range the scanner accepts. *)
Definition valid_job (q : queue_item) : Prop :=
  75 <= resolution (item q) <= 6400.

(** [a'] has the written files of [a] and possibly more after them, and a
    counter that is not lower; with auto-increment on, the counter went up
    at least once for every file added. *)
Definition records_since (a a' : app) : Prop :=
  exists new_files : list string,
    scanned_images a' = scanned_images a ++ new_files /\
    auto_increment a' = auto_increment a /\
    (scan_counter a <= scan_counter a')%N /\
    (auto_increment a = true ->
     (scan_counter a + N.of_nat (length new_files) <= scan_counter a')%N).

(** [name] ends in a dot and the extension of the format [f]. *)
Definition has_ext (f : file_format_t) (name : string) : Prop :=
  exists stem : string, name = (stem ++ "." ++ ext_map f)%string.

(* ================================================================== *)
(** * Properties *)

(** ** Transform pipeline *)

(** C5. With every parameter at its identity value (rotation 0, no flip,
    brightness 1.0, contrast 1.0, exposure 0.0, no inversion, no dust
    removal) the pipeline returns the image it was given, sample for
    sample. *)
Theorem apply_all_transforms_identity :
  forall (rot : image -> Z -> image) (s : settings) (img : image),
    identity_params s = true ->
    apply_all_transforms rot s img = img.
Proof.
  intros rot s img H.
  unfold identity_params in H.
  repeat (apply andb_prop in H; destruct H as [H ?]).
  unfold apply_all_transforms, apply_adjustments, adjustments_body, copy.
  repeat match goal with
         | E : negb ?b = true |- _ => apply negb_true_iff in E
         end.
  repeat match goal with
         | E : ?b = _ |- context [?b] => rewrite E
         end.
  reflexivity.
Qed.

Lemma apply_all_transforms_identity_witness :
  identity_params (reset_adjustments default_vars) = true /\
  apply_all_transforms (fun img _ => img) (reset_adjustments default_vars) speck = speck.
Proof.
  split.
  - reflexivity.
  - apply (apply_all_transforms_identity (fun img _ => img)
             (reset_adjustments default_vars) speck).
    reflexivity.
Defined.

(** After [reset_adjustments] the pipeline is the identity. *)
Lemma apply_all_transforms_after_reset :
  forall (rot : image -> Z -> image) (s : settings) (img : image),
    apply_all_transforms rot (reset_adjustments s) img = img.
Proof. intros rot s img. reflexivity. Qed.

(** The handler of [apply_adjustments] covers the whole block: the result is
    that of the body when it returns, the untouched input when it raises. *)
Lemma apply_adjustments_cases : forall s img,
  match adjustments_body s img with
  | Ok out => apply_adjustments s img = out
  | Raise _ => apply_adjustments s img = img
  end.
Proof.
  intros s img. unfold apply_adjustments.
  destruct (adjustments_body s img); reflexivity.
Qed.

(** On a bilevel image neither enhancer succeeds. *)
Lemma blend_Mode1 : forall im1 im2 alpha,
  im_mode im2 = Mode1 ->
  Image.blend im1 im2 alpha = Raise (ValueError "image has wrong mode").
Proof.
  intros im1 im2 alpha H. unfold Image.blend. rewrite H.
  rewrite orb_true_r. reflexivity.
Qed.

(** A statement of the block that raises ends the block. *)
Lemma brightness_raise_ends_block : forall (s : settings) (img : image) (e : exn),
  brightness_stage s (copy img) = Raise e ->
  adjustments_body s img = Raise e.
Proof.
  intros s img e H. unfold adjustments_body. cbv zeta.
  unfold brightness_stage in H. rewrite H. reflexivity.
Qed.

Lemma contrast_raise_ends_block :
  forall (s : settings) (img i1 : image) (e : exn),
    brightness_stage s (copy img) = Ok i1 ->
    contrast_stage s i1 = Raise e ->
    adjustments_body s img = Raise e.
Proof.
  intros s img i1 e H1 H2. unfold adjustments_body. cbv zeta.
  unfold brightness_stage in H1. rewrite H1. cbn [bind].
  unfold contrast_stage in H2. rewrite H2. reflexivity.
Qed.

Lemma handler_returns_input : forall (s : settings) (img : image) (e : exn),
  adjustments_body s img = Raise e -> apply_adjustments s img = img.
Proof.
  intros s img e H. unfold apply_adjustments. rewrite H. reflexivity.
Qed.

(** On a bilevel image an enhancer that is switched on raises, whatever the
    other settings are. *)
Lemma bilevel_enhancer_raises : forall (s : settings) (img : image),
  im_mode img = Mode1 ->
  Qeq_bool (brightness s) 1 && Qeq_bool (contrast s) 1 = false ->
  adjustments_body s img = Raise (ValueError "image has wrong mode").
Proof.
  intros s img Hm Hon.
  destruct (Qeq_bool (brightness s) 1) eqn:Eb.
  - cbn [andb] in Hon.
    apply (contrast_raise_ends_block s img (copy img)).
    + unfold brightness_stage. rewrite Eb. reflexivity.
    + unfold contrast_stage. rewrite Hon. cbn [negb].
      unfold ImageEnhance.contrast. cbv zeta.
      apply blend_Mode1. exact Hm.
  - apply brightness_raise_ends_block.
    unfold brightness_stage. rewrite Eb. cbn [negb].
    unfold ImageEnhance.brightness. apply blend_Mode1. exact Hm.
Qed.

(** C1 (as the code has it).  [apply_adjustments] never raises, and it has
    one handler around the whole block, not one per stage.  When the
    brightness stage raises, or the contrast stage after it, the block ends
    there with that exception, the handler discards every adjustment and
    the image given to [apply_adjustments] comes back unchanged, whatever
    the later stages would have done.  Both enhancers do raise on every
    bilevel image.  When no stage raises the result is that of the block.
    Inversion on a mode it does not support (bilevel) does not raise: the
    mode test skips it, and the result is the one obtained with inversion
    switched off. *)
Theorem apply_adjustments_failure_discards_all :
  forall (s : settings) (img : image),
    (forall e, brightness_stage s (copy img) = Raise e ->
       adjustments_body s img = Raise e /\ apply_adjustments s img = img) /\
    (forall i1 e, brightness_stage s (copy img) = Ok i1 ->
       contrast_stage s i1 = Raise e ->
       adjustments_body s img = Raise e /\ apply_adjustments s img = img) /\
    (im_mode img = Mode1 ->
     Qeq_bool (brightness s) 1 && Qeq_bool (contrast s) 1 = false ->
     adjustments_body s img = Raise (ValueError "image has wrong mode") /\
     apply_adjustments s img = img) /\
    (forall e, adjustments_body s img = Raise e -> apply_adjustments s img = img) /\
    (forall out, adjustments_body s img = Ok out -> apply_adjustments s img = out) /\
    (im_mode img = Mode1 -> Qeq_bool (exposure s) 0 = true ->
     apply_adjustments s img = apply_adjustments (set_invert_negative false s) img).
Proof.
  intros s img. split; [| split; [| split; [| split; [| split]]]].
  - intros e H. pose proof (brightness_raise_ends_block s img e H) as B.
    split; [exact B | exact (handler_returns_input s img e B)].
  - intros i1 e H1 H2.
    pose proof (contrast_raise_ends_block s img i1 e H1 H2) as B.
    split; [exact B | exact (handler_returns_input s img e B)].
  - intros Hm Hon. pose proof (bilevel_enhancer_raises s img Hm Hon) as B.
    split; [exact B | exact (handler_returns_input s img _ B)].
  - apply handler_returns_input.
  - intros out H. unfold apply_adjustments. rewrite H. reflexivity.
  - intros Hm He.
    destruct (Qeq_bool (brightness s) 1 && Qeq_bool (contrast s) 1) eqn:Eon.
    + apply andb_true_iff in Eon. destruct Eon as [Eb Ec].
      unfold apply_adjustments, adjustments_body, copy.
      cbn [set_invert_negative brightness contrast exposure invert_negative
           remove_dust].
      rewrite Eb, Ec, He. cbn [negb bind]. rewrite Hm.
      destruct (invert_negative s); reflexivity.
    + rewrite (handler_returns_input s img _ (bilevel_enhancer_raises s img Hm Eon)).
      symmetry.
      apply (handler_returns_input (set_invert_negative false s) img
               (ValueError "image has wrong mode")).
      apply bilevel_enhancer_raises; [exact Hm | exact Eon].
Qed.

Lemma apply_adjustments_failure_discards_all_witness :
  adjustments_body bright_and_dust speck = Raise (ValueError "image has wrong mode") /\
  apply_adjustments bright_and_dust speck = speck.
Proof.
  apply (proj1 (proj2 (proj2
           (apply_adjustments_failure_discards_all bright_and_dust speck)))).
  - reflexivity.
  - reflexivity.
Defined.

(** C1 fails as stated.  On the bilevel speck with brightness 2.0 and dust
    removal on, the brightness stage is the only one that raises and dust
    removal alone succeeds, yet the output is the input and not the
    despeckled image. *)
Lemma one_failing_stage_drops_the_others :
  ImageEnhance.brightness speck 2 = Raise (ValueError "image has wrong mode") /\
  adjustments_body (set_brightness 1 bright_and_dust) speck
    = Ok (ImageFilter.median_filter speck) /\
  apply_adjustments bright_and_dust speck = speck /\
  apply_adjustments bright_and_dust speck <> ImageFilter.median_filter speck.
Proof.
  split; [reflexivity |].
  split; [reflexivity |].
  split; [reflexivity |].
  vm_compute. intro H. discriminate H.
Qed.

(** The queue has its own copy of the stages, without a handler: there a
    stage that raises fails the scan of the job. *)
Example queued_stage_failure_fails_the_scan :
  _do_scan_from_queue world_speck bright_job three_jobs
  = (Raise (ScanFailed (ValueError "image has wrong mode")), three_jobs).
Proof. reflexivity. Qed.

(* ================================================================== *)
(** ** The contrast stage *)

Lemma Qle_bool_gt : forall x y : Q, Qle_bool x y = false -> (y < x)%Q.
Proof.
  intros x y H. apply Qnot_le_lt. intro Hle.
  apply Qle_bool_iff in Hle. congruence.
Qed.

Lemma Qle_bool_inject_Z : forall a b : Z,
  Qle_bool (inject_Z a) (inject_Z b) = (a <=? b).
Proof.
  intros a b. unfold Qle_bool, inject_Z. cbn [Qnum Qden].
  rewrite !Z.mul_1_r. reflexivity.
Qed.

(** Inside [0, 255] truncation is the floor and stays in range. *)
Lemma Qtrunc_in_range : forall x : Q,
  (0 <= x)%Q -> (x <= 255)%Q ->
  fp.Qtrunc x = Qfloor x /\ 0 <= Qfloor x <= 255.
Proof.
  intros x H0 H255. unfold fp.Qtrunc.
  apply Qle_bool_iff in H0 as E. rewrite E. split; [reflexivity |].
  split.
  - change 0 with (Qfloor (inject_Z 0)). apply Qfloor_resp_le. exact H0.
  - change 255 with (Qfloor (inject_Z 255)). apply Qfloor_resp_le. exact H255.
Qed.

Lemma Qtrunc_inject_Z : forall z : Z, fp.Qtrunc (inject_Z z) = z.
Proof.
  intros z. unfold fp.Qtrunc.
  destruct (Qle_bool 0 (inject_Z z)); [apply Qfloor_Z | apply Qceiling_Z].
Qed.

(** Whatever the float, the clipped cast and the plain cast are samples. *)
Lemma clip_uint8_range : forall t : spec_float, 0 <= fp.clip_uint8 t <= 255.
Proof.
  intros t. unfold fp.clip_uint8.
  destruct (fp.leb_Q t 0) eqn:E0; [lia |].
  destruct (fp.geb_Q t 255) eqn:E1; [lia |].
  destruct t as [sg | sg | | sg m e]; cbn [fp.trunc]; try lia.
  cbn [fp.leb_Q fp.geb_Q] in E0, E1.
  apply Qle_bool_gt in E0. apply Qle_bool_gt in E1.
  destruct (Qtrunc_in_range (fp.to_Q (S754_finite sg m e))) as [Ht Hr].
  - apply Qlt_le_weak. exact E0.
  - apply Qlt_le_weak. exact E1.
  - rewrite Ht. exact Hr.
Qed.

Lemma cast_uint8_range : forall t : spec_float, 0 <= fp.cast_uint8 t <= 255.
Proof.
  intros t. unfold fp.cast_uint8.
  pose proof (Z.mod_pos_bound (fp.trunc t) 256). lia.
Qed.

Lemma blend_sample_range : forall (alpha : spec_float) (a b : Z),
  0 <= Image.blend_sample alpha a b <= 255.
Proof.
  intros alpha a b. unfold Image.blend_sample. cbv zeta.
  destruct (fp.geb_Q alpha 0 && fp.leb_Q alpha 1);
    [apply cast_uint8_range | apply clip_uint8_range].
Qed.

(** The scaled sample is the blended sample, with the two shortcuts. *)
Lemma scale_about_blend : forall (m : Z) (c : Q) (v : Z),
  scale_about m c v
  = if fp.eqb_Q (Image.alpha32 c) 0 then m
    else if fp.eqb_Q (Image.alpha32 c) 1 then v
    else Image.blend_sample (Image.alpha32 c) m v.
Proof. reflexivity. Qed.

Lemma scale_about_range : forall (m : Z) (c : Q) (v : Z),
  0 <= m <= 255 -> 0 <= v <= 255 -> 0 <= scale_about m c v <= 255.
Proof.
  intros m c v Hm Hv. rewrite scale_about_blend.
  destruct (fp.eqb_Q (Image.alpha32 c) 0); [exact Hm |].
  destruct (fp.eqb_Q (Image.alpha32 c) 1); [exact Hv |].
  apply blend_sample_range.
Qed.

(** A sample as a float comes back from either cast. *)
Lemma of_Z_sample : forall m : Z,
  0 <= m <= 255 ->
  fp.cast_uint8 (fp.of_Z m) = m /\ fp.clip_uint8 (fp.of_Z m) = m.
Proof.
  intros m Hm. destruct m as [| p | p]; [split; reflexivity | | lia].
  assert (T : fp.trunc (fp.of_Z (Zpos p)) = Zpos p).
  { cbn [fp.of_Z fp.trunc fp.to_Q]. apply Qtrunc_inject_Z. }
  split.
  - unfold fp.cast_uint8. rewrite T. apply Z.mod_small. lia.
  - unfold fp.clip_uint8. rewrite T.
    cbn [fp.of_Z fp.leb_Q fp.geb_Q fp.to_Q].
    change 0%Q with (inject_Z 0). change 255%Q with (inject_Z 255).
    rewrite !Qle_bool_inject_Z.
    destruct (Zpos p <=? 0) eqn:E0; [apply Z.leb_le in E0; lia |].
    destruct (255 <=? Zpos p) eqn:E1; [apply Z.leb_le in E1; lia | reflexivity].
Qed.

(** A sample at the pivot stays where it is, for every factor that is a
    finite float. *)
Lemma blend_sample_pivot : forall (alpha : spec_float) (m : Z),
  fp.is_finite alpha = true ->
  0 <= m <= 255 ->
  Image.blend_sample alpha m m = m.
Proof.
  intros alpha m Hf Hm. unfold Image.blend_sample. cbv zeta.
  rewrite Z.sub_diag.
  assert (E : exists sg, fp.mul32 alpha (fp.of_Z 0) = S754_zero sg).
  { destruct alpha as [sg | sg | | sg ma ea]; try discriminate Hf;
      eexists; reflexivity. }
  destruct E as [sg E]. rewrite E.
  destruct (of_Z_sample m Hm) as [C1 C2].
  assert (A : fp.cast_uint8 (fp.add32 (fp.of_Z m) (S754_zero sg)) = m /\
              fp.clip_uint8 (fp.add32 (fp.of_Z m) (S754_zero sg)) = m).
  { destruct m as [| p | p]; [| | lia].
    - destruct sg; split; reflexivity.
    - split; [exact C1 | exact C2]. }
  destruct A as [A1 A2].
  destruct (fp.geb_Q alpha 0 && fp.leb_Q alpha 1); assumption.
Qed.

Lemma scale_about_pivot : forall (m : Z) (c : Q),
  fp.is_finite (Image.alpha32 c) = true ->
  0 <= m <= 255 ->
  scale_about m c m = m.
Proof.
  intros m c Hf Hm. rewrite scale_about_blend.
  destruct (fp.eqb_Q (Image.alpha32 c) 0); [reflexivity |].
  destruct (fp.eqb_Q (Image.alpha32 c) 1); [reflexivity |].
  apply blend_sample_pivot; assumption.
Qed.

Lemma zip_with_repeat : forall (A B C : Type) (f : A -> B -> C) (x : A) (l : list B),
  Image.zip_with f (repeat x (length l)) l = map (f x) l.
Proof.
  intros A B C f x. induction l as [| b l IH]; simpl.
  - reflexivity.
  - rewrite IH. reflexivity.
Qed.

(** What [wf_image] says, as propositions. *)
Lemma wf_image_inv : forall im,
  wf_image im = true ->
  length (im_data im) = Z.to_nat (height im) /\
  Forall (fun row =>
    length row = Z.to_nat (width im) /\
    Forall (fun px =>
      length px = bands (im_mode im) /\
      Forall (fun v => sample_ok (im_mode im) v = true) px) row) (im_data im).
Proof.
  intros im H. unfold wf_image in H.
  repeat (apply andb_true_iff in H; destruct H as [H ?]).
  split.
  - apply Z.eqb_eq in H1. lia.
  - apply Forall_forall. intros row Hrow.
    rewrite forallb_forall in H0. specialize (H0 row Hrow).
    apply andb_true_iff in H0. destruct H0 as [Hw Hpx].
    split; [apply Z.eqb_eq in Hw; lia |].
    apply Forall_forall. intros px Hin.
    rewrite forallb_forall in Hpx. specialize (Hpx px Hin).
    apply andb_true_iff in Hpx. destruct Hpx as [Hb Hs].
    split; [apply Nat.eqb_eq; exact Hb |].
    apply Forall_forall. rewrite forallb_forall in Hs. exact Hs.
Qed.

Lemma sample_ok_range : forall m v, sample_ok m v = true -> 0 <= v <= 255.
Proof.
  intros m v H. destruct m; simpl in H.
  - apply orb_true_iff in H. destruct H as [H | H]; apply Z.eqb_eq in H; lia.
  - apply andb_true_iff in H. destruct H as [H1 H2].
    apply Z.leb_le in H1. apply Z.leb_le in H2. lia.
  - apply andb_true_iff in H. destruct H as [H1 H2].
    apply Z.leb_le in H1. apply Z.leb_le in H2. lia.
Qed.

(** The luma of a well-formed pixel is a sample. *)
Lemma luma_range : forall m px,
  length px = bands m ->
  Forall (fun v => sample_ok m v = true) px ->
  0 <= Image.luma m px <= 255.
Proof.
  intros m px Hlen Hok.
  assert (R : Forall (fun v => 0 <= v <= 255) px).
  { eapply Forall_impl; [| exact Hok]. intros v. apply sample_ok_range. }
  destruct m; simpl in Hlen.
  - destruct px as [| v [| ? ?]]; try discriminate.
    inversion R; subst. simpl. assumption.
  - destruct px as [| v [| ? ?]]; try discriminate.
    inversion R; subst. simpl. assumption.
  - destruct px as [| r [| g [| b [| ? ?]]]]; try discriminate.
    inversion R as [| ? ? Hr R1]; subst.
    inversion R1 as [| ? ? Hg R2]; subst.
    inversion R2 as [| ? ? Hb _]; subst.
    unfold Image.luma. rewrite Z.shiftr_div_pow2 by lia.
    change (2 ^ 16) with 65536. split.
    + apply Z.div_pos; lia.
    + assert (r * 19595 + g * 38470 + b * 7471 + 32768 < 256 * 65536) by lia.
      assert ((r * 19595 + g * 38470 + b * 7471 + 32768) / 65536 < 256)
        by (apply Z.div_lt_upper_bound; lia).
      lia.
Qed.

Lemma gray_row_bounds : forall m (row : list pixel) acc,
  Forall (fun px => 0 <= Image.luma m px <= 255) row ->
  acc <= fold_right (fun (px : pixel) acc' => fold_right Z.add acc' px) acc
           (map (fun px => [Image.luma m px]) row)
      <= acc + 255 * Z.of_nat (length row).
Proof.
  intros m row acc H. induction H as [| px row Hpx Hrow IH].
  - simpl. lia.
  - cbn [map fold_right length]. rewrite Nat2Z.inj_succ. lia.
Qed.

Lemma gray_sum_bounds : forall m (rows : list (list pixel)),
  Forall (Forall (fun px => 0 <= Image.luma m px <= 255)) rows ->
  0 <= ImageEnhance.sum_samples (map (map (fun px => [Image.luma m px])) rows)
    <= 255 * ImageEnhance.count_pixels (map (map (fun px => [Image.luma m px])) rows) /\
  0 <= ImageEnhance.count_pixels (map (map (fun px => [Image.luma m px])) rows).
Proof.
  intros m rows H. induction H as [| row rows Hrow Hrows IH].
  - simpl. lia.
  - destruct IH as [IH1 IH2].
    pose proof (gray_row_bounds m row
                  (ImageEnhance.sum_samples
                     (map (map (fun px => [Image.luma m px])) rows)) Hrow) as B.
    assert (Es : ImageEnhance.sum_samples
                   (map (map (fun px => [Image.luma m px])) (row :: rows))
                 = fold_right (fun (px : pixel) acc' => fold_right Z.add acc' px)
                     (ImageEnhance.sum_samples
                        (map (map (fun px => [Image.luma m px])) rows))
                     (map (fun px => [Image.luma m px]) row)) by reflexivity.
    assert (En : ImageEnhance.count_pixels
                   (map (map (fun px => [Image.luma m px])) (row :: rows))
                 = Z.of_nat (length row)
                   + ImageEnhance.count_pixels
                       (map (map (fun px => [Image.luma m px])) rows)).
    { unfold ImageEnhance.count_pixels. cbn [map fold_right].
      rewrite length_map. reflexivity. }
    rewrite Es, En. lia.
Qed.

(** The level of the gray image [Contrast] blends with is a sample. *)
Lemma mean_luma_range : forall im : image,
  wf_image im = true ->
  0 <= ImageEnhance.mean_luma im <= 255.
Proof.
  intros im Hwf.
  unfold ImageEnhance.mean_luma, Image.convert_L. cbn [im_data]. cbv zeta.
  destruct (wf_image_inv im Hwf) as [_ Hrows].
  assert (L : Forall (Forall (fun px => 0 <= Image.luma (im_mode im) px <= 255))
                (im_data im)).
  { eapply Forall_impl; [| exact Hrows]. intros row [_ Hpx].
    eapply Forall_impl; [| exact Hpx]. intros px [Hl Hs].
    apply luma_range; assumption. }
  destruct (gray_sum_bounds (im_mode im) (im_data im) L) as [[S0 S1] N0].
  set (s := ImageEnhance.sum_samples _) in *.
  set (n := ImageEnhance.count_pixels _) in *.
  destruct (n =? 0) eqn:En; [lia |].
  apply Z.eqb_neq in En.
  split.
  - apply Z.div_pos; lia.
  - assert ((2 * s + n) / (2 * n) < 256) by (apply Z.div_lt_upper_bound; lia).
    lia.
Qed.

(** Blending a solid image of level [m] with a well-formed image is a map
    over its samples. *)
Lemma blend_solid_data : forall (im : image) (g : Z -> Z -> Z) (m : Z),
  wf_image im = true ->
  Image.zip_with (Image.zip_with (Image.zip_with g))
    (im_data (Image.new (im_mode im) (width im) (height im) m)) (im_data im)
  = map_samples (g m) (im_data im).
Proof.
  intros im g m Hwf. destruct (wf_image_inv im Hwf) as [Hh Hrows].
  unfold Image.new, map_samples. simpl.
  rewrite <- Hh, zip_with_repeat.
  apply map_ext_Forall.
  eapply Forall_impl; [| exact Hrows]. intros row [Hw Hpx]. simpl.
  rewrite <- Hw, zip_with_repeat.
  apply map_ext_Forall.
  eapply Forall_impl; [| exact Hpx]. intros px [Hb _]. simpl.
  rewrite <- Hb, zip_with_repeat. reflexivity.
Qed.

Lemma solid_data : forall (im : image) (m : Z),
  wf_image im = true ->
  im_data (Image.new (im_mode im) (width im) (height im) m)
  = map_samples (fun _ => m) (im_data im).
Proof.
  intros im m Hwf. destruct (wf_image_inv im Hwf) as [Hh Hrows].
  unfold Image.new, map_samples. simpl.
  rewrite <- Hh. clear Hh.
  induction Hrows as [| row rows [Hw Hpx] Hrows IH]; simpl; [reflexivity |].
  rewrite IH. f_equal.
  rewrite <- Hw. clear Hw.
  induction Hpx as [| px row' [Hb _] Hpx IH']; simpl; [reflexivity |].
  rewrite IH'. f_equal.
  rewrite <- Hb. clear. induction px; simpl; [reflexivity | f_equal; assumption].
Qed.

Lemma map_samples_ext_wf : forall (im : image) (f g : Z -> Z),
  wf_image im = true ->
  (forall v, 0 <= v <= 255 -> f v = g v) ->
  map_samples f (im_data im) = map_samples g (im_data im).
Proof.
  intros im f g Hwf Hfg. destruct (wf_image_inv im Hwf) as [_ Hrows].
  unfold map_samples. apply map_ext_Forall.
  eapply Forall_impl; [| exact Hrows]. intros row [_ Hpx]. simpl.
  apply map_ext_Forall.
  eapply Forall_impl; [| exact Hpx]. intros px [_ Hs]. simpl.
  apply map_ext_Forall.
  eapply Forall_impl; [| exact Hs]. intros v Hv. simpl.
  apply Hfg. apply (sample_ok_range (im_mode im)). exact Hv.
Qed.

Lemma map_samples_id : forall rows : list (list pixel),
  map_samples (fun v => v) rows = rows.
Proof.
  intros rows. unfold map_samples.
  rewrite (map_ext _ (fun row : list pixel => row)); [apply map_id |].
  intros row. rewrite (map_ext _ (fun px : pixel => px)); [apply map_id |].
  intros px. apply map_id.
Qed.

Lemma map_samples_ext : forall (f g : Z -> Z) (rows : list (list pixel)),
  (forall v, f v = g v) -> map_samples f rows = map_samples g rows.
Proof.
  intros f g rows H. unfold map_samples.
  apply map_ext. intros row. apply map_ext. intros px. apply map_ext. exact H.
Qed.

(** Blending a solid image of level [m] into a well-formed gray or colour
    image scales every sample about [m]. *)
Lemma blend_solid_scales : forall (img : image) (c : Q) (m : Z),
  wf_image img = true ->
  im_mode img <> Mode1 ->
  Image.blend (Image.new (im_mode img) (width img) (height img) m) img c
  = Ok (mkImage (im_mode img) (width img) (height img)
          (map_samples (scale_about m c) (im_data img))).
Proof.
  intros img c m Hwf Hmode.
  unfold Image.blend.
  assert (E1 : mode_eqb (im_mode (Image.new (im_mode img) (width img) (height img) m))
                 Mode1 || mode_eqb (im_mode img) Mode1 = false).
  { simpl. destruct (im_mode img); [contradiction | reflexivity | reflexivity]. }
  rewrite E1.
  assert (E2 : mode_eqb (im_mode (Image.new (im_mode img) (width img) (height img) m))
                 (im_mode img)
               && (width (Image.new (im_mode img) (width img) (height img) m)
                   =? width img)
               && (height (Image.new (im_mode img) (width img) (height img) m)
                   =? height img) = true).
  { simpl. rewrite !Z.eqb_refl. destruct (im_mode img); reflexivity. }
  rewrite E2. cbn [negb].
  destruct (fp.eqb_Q (Image.alpha32 c) 0) eqn:C0.
  - unfold copy. f_equal.
    change (Image.new (im_mode img) (width img) (height img) m)
      with (mkImage (im_mode img) (width img) (height img)
              (im_data (Image.new (im_mode img) (width img) (height img) m))).
    rewrite solid_data by exact Hwf. f_equal.
    apply map_samples_ext. intros v. rewrite scale_about_blend, C0. reflexivity.
  - destruct (fp.eqb_Q (Image.alpha32 c) 1) eqn:C1.
    + unfold copy.
      rewrite (map_samples_ext (scale_about m c) (fun v => v)).
      * rewrite map_samples_id. destruct img; reflexivity.
      * intros v. rewrite scale_about_blend, C0, C1. reflexivity.
    + rewrite blend_solid_data by exact Hwf.
      f_equal. cbn [Image.new im_mode width height]. f_equal.
      apply map_samples_ext. intros v. rewrite scale_about_blend, C0, C1.
      reflexivity.
Qed.

(** The contrast enhancer of Pillow on a gray or colour image: every sample
    keeps its distance to the mean luma of the image, scaled by the factor
    in single precision. *)
Lemma contrast_enhancer_scales_about_mean : forall (img : image) (c : Q),
  wf_image img = true ->
  im_mode img <> Mode1 ->
  ImageEnhance.contrast img c
  = Ok (mkImage (im_mode img) (width img) (height img)
          (map_samples (scale_about (ImageEnhance.mean_luma img) c) (im_data img))).
Proof.
  intros img c Hwf Hmode.
  unfold ImageEnhance.contrast, Image.solid_gray. cbv zeta.
  apply blend_solid_scales; assumption.
Qed.

(** C6 (as the code has it).  For a well-formed gray or colour image and a
    contrast factor [c] other than 1.0, with every other adjustment at
    rest, the contrast stage sends each sample [v] to [m + c * (v - m)]
    evaluated in single precision ([c], the product and the sum are each
    rounded to a float), truncated toward zero and clipped to [0, 255],
    where [m] is the mean luma of the image rounded to the nearest integer.
    The pivot is the mean of the image, not 128: a sample at [m] stays at
    [m] for every factor that is a finite float. *)
Theorem contrast_scales_about_mean_luma :
  forall (img : image) (c : Q),
    wf_image img = true ->
    im_mode img <> Mode1 ->
    Qeq_bool c 1 = false ->
    let m := ImageEnhance.mean_luma img in
    0 <= m <= 255 /\
    apply_adjustments (set_contrast c default_vars) img
    = mkImage (im_mode img) (width img) (height img)
        (map_samples (scale_about m c) (im_data img)) /\
    (fp.is_finite (Image.alpha32 c) = true -> scale_about m c m = m).
Proof.
  intros img c Hwf Hmode Hc m.
  assert (Hm : 0 <= m <= 255) by exact (mean_luma_range img Hwf).
  split; [exact Hm |]. split.
  - unfold apply_adjustments, adjustments_body, copy.
    cbn [set_contrast default_vars brightness contrast exposure invert_negative
         remove_dust].
    change (Qeq_bool 1 1) with true. cbn [negb bind].
    rewrite Hc. cbn [negb].
    rewrite (contrast_enhancer_scales_about_mean img c Hwf Hmode).
    reflexivity.
  - intros Hf. apply scale_about_pivot; assumption.
Qed.

Lemma contrast_scales_about_mean_luma_witness :
  apply_adjustments (set_contrast 2 default_vars) gray_pair
  = mkImage ModeL 2 1 [ [[72]; [184]] ] /\
  scale_about 128 2 128 = 128.
Proof.
  destruct (contrast_scales_about_mean_luma gray_pair 2) as (_ & E & P).
  - reflexivity.
  - discriminate.
  - reflexivity.
  - split.
    + rewrite E. reflexivity.
    + apply P. reflexivity.
Defined.

(** The rounding of the product shows: with contrast 1.2 about the mean 128
    the sample 23 goes to 1, where [128 - 1.2 * 105] is 2. *)
Example contrast_rounds_in_single_precision :
  im_data (apply_adjustments (set_contrast (6 # 5) default_vars)
             (mkImage ModeL 2 1 [ [[23]; [233]] ]))
  = [ [[1]; [254]] ].
Proof. reflexivity. Qed.

(** C6 fails as stated.  A gray pixel of level 200 has mean luma 200, and
    with contrast 2.0 it stays at 200; scaling its distance to 128 would
    give 255. *)
Lemma contrast_pivot_is_not_128 :
  im_data (apply_adjustments (set_contrast 2 default_vars) gray200) = [ [[200]] ] /\
  map_samples (mid_gray_contrast 2) (im_data gray200) = [ [[255]] ] /\
  im_data (apply_adjustments (set_contrast 2 default_vars) gray200)
    <> map_samples (mid_gray_contrast 2) (im_data gray200).
Proof.
  split; [reflexivity |].
  split; [reflexivity |].
  vm_compute. intro H. discriminate H.
Qed.

(* ================================================================== *)
(** ** Frame detector *)

(** C10. [detect_film_frames] returns a list for every image and never
    raises: when its body returns, the list is the one the body built; when
    anything in the body raises, the list is empty, and [_do_scan] then
    saves the whole image as a single file. *)
Theorem detect_film_frames_never_raises :
  forall (alloc : Z -> bool) (s : settings) (img : image),
    match detect_body alloc img with
    | Ok found => detect_film_frames alloc img = found
    | Raise _ =>
        detect_film_frames alloc img = [] /\
        plan_after_detection alloc s img = SaveWhole
    end.
Proof.
  intros alloc s img.
  unfold plan_after_detection, detect_film_frames.
  destruct (detect_body alloc img) as [found | e].
  - reflexivity.
  - split; [reflexivity |].
    destruct (auto_detect s); reflexivity.
Qed.

(** The failure case is met: an array that cannot be allocated. *)
Example detect_film_frames_out_of_memory :
  detect_body (fun _ => false) (two_frames_sheet 200 0 255) = Raise MemoryError /\
  detect_film_frames (fun _ => false) (two_frames_sheet 200 0 255) = [].
Proof. split; reflexivity. Qed.

Lemma enumerate_from_app : forall (A : Type) (l1 l2 : list A) (i : Z),
  enumerate_from i (l1 ++ l2)
  = enumerate_from i l1 ++ enumerate_from (i + Z.of_nat (length l1)) l2.
Proof.
  intros A l1. induction l1 as [| a l1 IH]; intros l2 i.
  - simpl. f_equal. lia.
  - cbn [List.app enumerate_from length]. rewrite IH. cbn [List.app].
    do 3 f_equal. lia.
Qed.

(** A column loop that only meets active columns appends no frame. *)
Lemma scan_active_columns : forall img binary rows (cs : list Z) (i : Z) (st : scan_state),
  Forall (fun c => rows < 10 * c) cs ->
  frames (fold_left (scan_column img binary rows) (enumerate_from i cs) st)
  = frames st.
Proof.
  intros img binary rows cs. induction cs as [| c cs IH]; intros i st H.
  - reflexivity.
  - inversion H as [| ? ? Hc Hcs]; subst.
    cbn [enumerate_from fold_left]. rewrite IH by exact Hcs.
    unfold scan_column.
    replace (rows <? 10 * c) with true by (symmetry; apply Z.ltb_lt; exact Hc).
    replace (10 * c <=? rows) with false by (symmetry; apply Z.leb_gt; exact Hc).
    destruct (in_frame st); reflexivity.
Qed.

(** The run that reaches the last column is never closed: the active
    columns at the right end of a sheet add nothing to the frames found
    before them. *)
Lemma run_to_last_column_not_emitted :
  forall img binary rows (before run : list Z),
    Forall (fun c => rows < 10 * c) run ->
    frames (fold_left (scan_column img binary rows) (enumerate (before ++ run))
              (mkScan false 0 []))
    = frames (fold_left (scan_column img binary rows) (enumerate before)
                (mkScan false 0 [])).
Proof.
  intros img binary rows before run H. unfold enumerate.
  rewrite enumerate_from_app, fold_left_app.
  apply scan_active_columns. exact H.
Qed.

(** C4 on the code.  When every column of a sheet is active, the columns
    form one run over the full width, and no frame is returned, however
    wide the sheet and however many of its rows are active: the run is
    still open when the column loop ends and nothing closes it. *)
Theorem full_width_run_is_dropped :
  forall (alloc : Z -> bool) (img : image),
    all_columns_active alloc img = true ->
    detect_film_frames alloc img = [].
Proof.
  intros alloc img H.
  unfold all_columns_active in H.
  unfold detect_film_frames, detect_body.
  destruct (np.array alloc (ImageOps.grayscale img)) as [img_array | e];
    [| discriminate].
  cbn [bind]. cbv zeta.
  change (width (ImageOps.grayscale img)) with (width img).
  fold (threshold_mask img_array).
  unfold enumerate. rewrite scan_active_columns; [reflexivity |].
  apply Forall_forall. intros c Hc.
  rewrite forallb_forall in H. apply Z.ltb_lt. apply H. exact Hc.
Qed.

Lemma full_width_run_is_dropped_witness :
  all_columns_active (fun _ => true) (full_width_band 120 160 120 0 255) = true /\
  detect_film_frames (fun _ => true) (full_width_band 120 160 120 0 255) = [].
Proof.
  split.
  - vm_compute. reflexivity.
  - apply (full_width_run_is_dropped (fun _ => true)
             (full_width_band 120 160 120 0 255)).
    vm_compute. reflexivity.
Defined.

(** With its last column dark, the same band of 120 rows is returned. *)
Example band_short_of_edge_is_emitted :
  detect_film_frames (fun _ => true) (band_short_of_edge 120 160 120 0 255)
  = [(0, 0, 120, 129)].
Proof. vm_compute. reflexivity. Qed.

(** The integer threshold of the model decides the comparison with
    [mean + std / 2] exactly. *)
Lemma floor_threshold_exact : forall n s1 s2 v : Z,
  0 < n -> 0 <= n * s2 - s1 * s1 ->
  (np.floor_threshold n s1 s2 <? v) = np.above_mean_plus_half_std n s1 s2 v.
Proof.
  intros n s1 s2 v Hn HD.
  unfold np.floor_threshold, np.above_mean_plus_half_std.
  set (D := n * s2 - s1 * s1) in *.
  set (d := n * v - s1).
  pose proof (Z.sqrt_nonneg D) as Hr.
  assert (Hdiv : (2 * s1 + Z.sqrt D) / (2 * n) < v <-> Z.sqrt D < 2 * d).
  { split; intro H.
    - assert (~ (2 * n * v <= 2 * s1 + Z.sqrt D)).
      { intro Hc. apply Z.div_le_lower_bound in Hc; lia. }
      unfold d. lia.
    - apply Z.div_lt_upper_bound; [lia |]. unfold d in H. lia. }
  destruct (Z.ltb_spec ((2 * s1 + Z.sqrt D) / (2 * n)) v) as [H | H].
  - apply Hdiv in H. symmetry. apply andb_true_iff. split.
    + apply Z.ltb_lt. unfold d in H. lia.
    + apply Z.ltb_lt.
      apply (Z.sqrt_lt_square D (2 * d)) in H; [| exact HD | lia].
      lia.
  - symmetry. apply andb_false_iff.
    destruct (Z.ltb_spec s1 (n * v)) as [H1 | H1]; [right | left; reflexivity].
    apply Z.ltb_ge. fold d.
    assert (Hn2 : ~ Z.sqrt D < 2 * d) by (intro Hc; apply Hdiv in Hc; lia).
    assert (Hd : 0 <= 2 * d) by (unfold d; lia).
    destruct (Z.lt_ge_cases D (2 * d * (2 * d))) as [Hlt | Hge]; [| lia].
    exfalso. apply Hn2. apply Z.sqrt_lt_square; [exact HD | lia | lia].
Qed.

(** Adding one sample keeps [n * s2 - s1 * s1] non-negative
    (Cauchy-Schwarz, one step). *)
Lemma variance_step : forall n s1 s2 x : Z,
  0 <= n -> 0 <= n * s2 - s1 * s1 -> (n = 0 -> s1 = 0 /\ s2 = 0) ->
  0 <= (1 + n) * (x * x + s2) - (x + s1) * (x + s1).
Proof.
  intros n s1 s2 x Hn HD H0.
  destruct (Z.eq_dec n 0) as [E | E].
  - destruct (H0 E) as [E1 E2]. subst. lia.
  - assert (R : 0 <= n * (s2 + n * (x * x) - 2 * (s1 * x))).
    { replace (n * (s2 + n * (x * x) - 2 * (s1 * x)))
        with ((n * s2 - s1 * s1) + (s1 - n * x) * (s1 - n * x)) by ring.
      pose proof (Z.square_nonneg (s1 - n * x)). lia. }
    assert (R' : 0 <= s2 + n * (x * x) - 2 * (s1 * x)).
    { apply Z.mul_nonneg_cancel_l with (n := n); lia. }
    replace ((1 + n) * (x * x + s2) - (x + s1) * (x + s1))
      with ((n * s2 - s1 * s1) + (s2 + n * (x * x) - 2 * (s1 * x))) by ring.
    lia.
Qed.

Lemma variance_row : forall (row : list Z) (n s1 s2 : Z),
  0 <= n -> 0 <= n * s2 - s1 * s1 -> (n = 0 -> s1 = 0 /\ s2 = 0) ->
  let n' := Z.of_nat (length row) + n in
  let s1' := fold_right Z.add s1 row in
  let s2' := fold_right (fun v acc' => v * v + acc') s2 row in
  0 <= n' /\ 0 <= n' * s2' - s1' * s1' /\ (n' = 0 -> s1' = 0 /\ s2' = 0).
Proof.
  induction row as [| x row IH]; intros n s1 s2 Hn HD H0.
  - simpl. auto.
  - destruct (IH n s1 s2 Hn HD H0) as (Hn' & HD' & H0').
    cbn zeta in *. cbn [length fold_right].
    set (m := Z.of_nat (length row) + n) in *.
    set (t1 := fold_right Z.add s1 row) in *.
    set (t2 := fold_right (fun v acc' => v * v + acc') s2 row) in *.
    replace (Z.of_nat (S (length row)) + n) with (1 + m) by (unfold m; lia).
    split; [lia |]. split; [| lia].
    apply variance_step; assumption.
Qed.

(** The variance of an array is not negative. *)
Lemma np_variance_nonneg : forall a : list (list Z),
  0 <= np.size a /\
  0 <= np.size a * np.sum_sq a - np.sum a * np.sum a /\
  (np.size a = 0 -> np.sum a = 0 /\ np.sum_sq a = 0).
Proof.
  induction a as [| row a IH].
  - simpl. lia.
  - destruct IH as (Hn & HD & H0).
    exact (variance_row row (np.size a) (np.sum a) (np.sum_sq a) Hn HD H0).
Qed.

(** On every array with at least one sample, a sample is in the mask exactly
    when it is above [mean + std / 2]. *)
Lemma floor_threshold_array : forall (a : list (list Z)) (v : Z),
  np.size a <> 0 ->
  (np.floor_threshold (np.size a) (np.sum a) (np.sum_sq a) <? v)
  = np.above_mean_plus_half_std (np.size a) (np.sum a) (np.sum_sq a) v.
Proof.
  intros a v Hn. destruct (np_variance_nonneg a) as (H0 & HD & _).
  apply floor_threshold_exact; lia.
Qed.

Lemma row_fold_add : forall (r : list Z) acc,
  fold_right Z.add acc r = fold_right Z.add 0 r + acc.
Proof. induction r as [| v r IH]; intros acc; simpl; [| rewrite IH]; lia. Qed.

Lemma row_fold_add_app : forall (r1 r2 : list Z),
  fold_right Z.add 0 (r1 ++ r2) = fold_right Z.add 0 r1 + fold_right Z.add 0 r2.
Proof. intros. rewrite fold_right_app, row_fold_add. reflexivity. Qed.

Lemma row_fold_add_repeat : forall (v : Z) (k : nat),
  fold_right Z.add 0 (repeat v k) = Z.of_nat k * v.
Proof. induction k as [| k IH]; cbn [repeat fold_right]; [| rewrite IH]; lia. Qed.

Lemma row_fold_sq : forall (r : list Z) acc,
  fold_right (fun v acc' => v * v + acc') acc r
  = fold_right (fun v acc' => v * v + acc') 0 r + acc.
Proof. induction r as [| v r IH]; intros acc; simpl; [| rewrite IH]; lia. Qed.

Lemma row_fold_sq_app : forall (r1 r2 : list Z),
  fold_right (fun v acc' => v * v + acc') 0 (r1 ++ r2)
  = fold_right (fun v acc' => v * v + acc') 0 r1
    + fold_right (fun v acc' => v * v + acc') 0 r2.
Proof. intros. rewrite fold_right_app, row_fold_sq. reflexivity. Qed.

Lemma row_fold_sq_repeat : forall (v : Z) (k : nat),
  fold_right (fun v acc' => v * v + acc') 0 (repeat v k) = Z.of_nat k * (v * v).
Proof. induction k as [| k IH]; cbn [repeat fold_right]; [| rewrite IH]; lia. Qed.

Lemma np_size_app : forall a b, np.size (a ++ b) = np.size a + np.size b.
Proof.
  intros a b. unfold np.size. induction a as [| r a IH]; simpl; [| rewrite IH]; lia.
Qed.

Lemma np_size_repeat : forall (r : list Z) k,
  np.size (repeat r k) = Z.of_nat k * Z.of_nat (length r).
Proof.
  intros r k. unfold np.size.
  induction k as [| k IH]; cbn [repeat fold_right]; [| rewrite IH]; lia.
Qed.

Lemma np_sum_app : forall a b, np.sum (a ++ b) = np.sum a + np.sum b.
Proof.
  intros a b. unfold np.sum. induction a as [| r a IH]; simpl.
  - reflexivity.
  - rewrite row_fold_add, IH, (row_fold_add r (fold_right _ 0 a)). lia.
Qed.

Lemma np_sum_repeat : forall (r : list Z) k,
  np.sum (repeat r k) = Z.of_nat k * fold_right Z.add 0 r.
Proof.
  intros r k. unfold np.sum.
  induction k as [| k IH]; cbn [repeat fold_right].
  - lia.
  - rewrite row_fold_add, IH. lia.
Qed.

Lemma np_sum_sq_app : forall a b, np.sum_sq (a ++ b) = np.sum_sq a + np.sum_sq b.
Proof.
  intros a b. unfold np.sum_sq. induction a as [| r a IH]; simpl.
  - reflexivity.
  - rewrite row_fold_sq, IH, (row_fold_sq r (fold_right _ 0 a)). lia.
Qed.

Lemma np_sum_sq_repeat : forall (r : list Z) k,
  np.sum_sq (repeat r k)
  = Z.of_nat k * fold_right (fun v acc' => v * v + acc') 0 r.
Proof.
  intros r k. unfold np.sum_sq.
  induction k as [| k IH]; cbn [repeat fold_right].
  - lia.
  - rewrite row_fold_sq, IH. lia.
Qed.

(** The size and the sums of an array given as blocks of repeated rows. *)
Create Rewrite HintDb banded.
#[local] Hint Rewrite np_size_app np_size_repeat np_sum_app np_sum_repeat
  np_sum_sq_app np_sum_sq_repeat row_fold_add_app row_fold_add_repeat
  row_fold_sq_app row_fold_sq_repeat : banded.
#[local] Hint Rewrite @length_app @repeat_length : banded.

(** Adding the same row of the mask [k] times adds [k] to the count of every
    column it marks. *)
Lemma zip_add_bit_twice : forall (row : list bool) (acc : list Z) (k : Z),
  Image.zip_with (fun (b : bool) c => if b then 1 + c else c) row
    (Image.zip_with (fun (b : bool) c => if b then k + c else c) row acc)
  = Image.zip_with (fun (b : bool) c => if b then (1 + k) + c else c) row acc.
Proof.
  induction row as [| b row IH]; intros acc k; [reflexivity |].
  destruct acc as [| c acc]; [reflexivity |].
  cbn [Image.zip_with]. rewrite IH. destruct b; [rewrite Z.add_assoc |]; reflexivity.
Qed.

Lemma zip_add_zero : forall (row : list bool) (acc : list Z),
  length row = length acc ->
  Image.zip_with (fun (b : bool) c => if b then 0 + c else c) row acc = acc.
Proof.
  induction row as [| b row IH]; intros [| c acc] H; try discriminate; [reflexivity |].
  cbn [Image.zip_with]. rewrite IH by (simpl in H; lia). destruct b; reflexivity.
Qed.

Lemma add_rows_repeat : forall (row : list bool) (k : nat) (acc : list Z),
  length row = length acc ->
  fold_right (fun row acc =>
      Image.zip_with (fun (b : bool) c => if b then 1 + c else c) row acc)
    acc (repeat row k)
  = Image.zip_with (fun (b : bool) c => if b then Z.of_nat k + c else c) row acc.
Proof.
  intros row k acc H. induction k as [| k IH].
  - simpl. symmetry. apply zip_add_zero. exact H.
  - cbn [repeat fold_right]. rewrite IH, zip_add_bit_twice.
    replace (1 + Z.of_nat k) with (Z.of_nat (S k)) by lia. reflexivity.
Qed.

Lemma zip_add_false : forall (n : nat) (k : Z) (acc : list Z),
  length acc = n ->
  Image.zip_with (fun (b : bool) c => if b then k + c else c) (repeat false n) acc
  = acc.
Proof.
  induction n as [| n IH]; intros k [| c acc] H; try discriminate; [reflexivity |].
  cbn [repeat Image.zip_with]. rewrite IH by (simpl in H; lia). reflexivity.
Qed.

Lemma where_from_false : forall (k : nat) (i : Z) (l : list bool),
  np.where_from i (repeat false k ++ l) = np.where_from (i + Z.of_nat k) l.
Proof.
  induction k as [| k IH]; intros i l.
  - simpl. f_equal. lia.
  - cbn [repeat List.app np.where_from]. rewrite IH. f_equal. lia.
Qed.

Lemma where_from_true : forall (k : nat) (i : Z) (l : list bool),
  np.where_from i (repeat true k ++ l)
  = map (fun j => i + Z.of_nat j) (seq 0 k) ++ np.where_from (i + Z.of_nat k) l.
Proof.
  induction k as [| k IH]; intros i l.
  - simpl. f_equal. lia.
  - cbn [repeat List.app np.where_from seq map]. rewrite IH.
    rewrite <- seq_shift, map_map. cbn [List.app]. f_equal; [f_equal; lia |].
    f_equal.
    + apply map_ext. intros j. lia.
    + f_equal. lia.
Qed.

Lemma where_from_all_false : forall (k : nat) (i : Z),
  np.where_from i (repeat false k) = [].
Proof.
  induction k as [| k IH]; intros i; [reflexivity |].
  cbn [repeat np.where_from]. apply IH.
Qed.

(** The active rows of a mask column that is dark, bright for [b] rows, then
    dark again. *)
Lemma where_true_band : forall a b c : nat,
  np.where_true (repeat false a ++ repeat true (S b) ++ repeat false c)
  = map (fun j => Z.of_nat a + Z.of_nat j) (seq 0 (S b)).
Proof.
  intros a b c. unfold np.where_true.
  rewrite where_from_false, where_from_true, where_from_all_false, app_nil_r.
  apply map_ext. intros j. lia.
Qed.

Lemma band_rows_ends : forall a b : nat,
  let rows := map (fun j => Z.of_nat a + Z.of_nat j) (seq 0 (S b)) in
  length rows = S b /\ hd 0 rows = Z.of_nat a /\ last rows 0 = Z.of_nat a + Z.of_nat b.
Proof.
  intros a b rows. subst rows. split; [| split].
  - rewrite length_map, length_seq. reflexivity.
  - cbn [seq map hd]. lia.
  - rewrite seq_S, map_app. cbn [map]. rewrite last_last. reflexivity.
Qed.

(** A run of columns whose mask is [rowA] on the first [a] and the last [c]
    rows and [rowB] on the [b + 1] rows between, with only the [rowB] rows
    active inside the run: the frame goes from row [a] to the index of the
    last active row, [a + b], each moved out by the padding. *)
Lemma close_run_band :
  forall (img : image) (rowA rowB : list bool) (a b c : nat) (start i : Z)
         (found : list frame),
    100 < i - start ->
    (i - start <? 10 * np.count_true
       (firstn (Z.to_nat (i - start)) (skipn (Z.to_nat start) rowA))) = false ->
    (i - start <? 10 * np.count_true
       (firstn (Z.to_nat (i - start)) (skipn (Z.to_nat start) rowB))) = true ->
    (100 < S b)%nat ->
    close_run img (repeat rowA a ++ repeat rowB (S b) ++ repeat rowA c) start i found
    = found ++ [(Z.max 0 (start - 10), Z.max 0 (Z.of_nat a - 10),
                 Z.min (width img) (i + 10),
                 Z.min (height img) (Z.of_nat a + Z.of_nat b + 10))].
Proof.
  intros img rowA rowB a b c start i found Hw HA HB Hb.
  unfold close_run. cbv zeta.
  replace (100 <? i - start) with true by (symmetry; apply Z.ltb_lt; exact Hw).
  unfold slice_columns, np.sum_axis1.
  rewrite !map_app, !map_repeat. rewrite HA, HB.
  rewrite where_true_band.
  destruct (band_rows_ends a b) as (Hlen & Hhd & Hlast).
  rewrite Hlen, Hhd, Hlast.
  replace (100 <? Z.of_nat (S b)) with true by (symmetry; apply Z.ltb_lt; lia).
  reflexivity.
Qed.

(** The column loop on the column sums of the two-rectangle sheet: two runs
    are closed, at columns 500 and 1600. *)
Lemma scan_two_runs : forall (img : image) (binary : list (list bool)),
  fold_left (scan_column img binary 1000)
    (enumerate (repeat 0 100 ++ repeat 600 400 ++ repeat 0 700 ++
                repeat 600 400 ++ repeat 0 400))
    (mkScan false 0 [])
  = mkScan false 1200
      (close_run img binary 1200 1600 (close_run img binary 100 500 [])).
Proof. intros img binary. reflexivity. Qed.

Ltac is_nat_literal n :=
  match n with
  | O => idtac
  | S ?m => is_nat_literal m
  | (?a + ?b)%nat => is_nat_literal a; is_nat_literal b
  end.

(** Replaces [Z.of_nat] of a closed numeral by its value. *)
Ltac of_nat_literals :=
  repeat match goal with
         | |- context [Z.of_nat ?n] =>
             is_nat_literal n;
             let v := eval vm_compute in (Z.of_nat n) in
             change (Z.of_nat n) with v
         end.

(** C7 on the code.  On the 2000 x 1000 sheet with two 400 x 600 rectangles
    of level [fg] at columns 100 and 1200, rows [y0 .. y0 + 599], on a
    background of level [bg < fg], two frames are returned, left to right.
    Their left, top and right edges are those of the rectangles moved out by
    10 (and clamped); their bottom edge is [y0 + 609], the index of the last
    bright row plus 10, clamped to 1000: one short of [y0 + 610], the
    bottom [y0 + 600] of the box moved out by 10. *)
Theorem two_frames_sheet_detected :
  forall (alloc : Z -> bool) (y0 : nat) (bg fg : Z),
    alloc 2000000 = true ->
    (y0 <= 400)%nat ->
    bg < fg ->
    detect_film_frames alloc (two_frames_sheet y0 bg fg)
    = [(90, Z.max 0 (Z.of_nat y0 - 10), 510, Z.min 1000 (Z.of_nat y0 + 609));
       (1190, Z.max 0 (Z.of_nat y0 - 10), 1610, Z.min 1000 (Z.of_nat y0 + 609))].
Proof.
  intros alloc y0 bg fg Halloc Hy Hfg.
  set (r0 := repeat bg 2000).
  set (r1 := repeat bg 100 ++ repeat fg 400 ++ repeat bg 700 ++
             repeat fg 400 ++ repeat bg 400).
  set (arr := repeat r0 y0 ++ repeat r1 600 ++ repeat r0 (400 - y0)).
  set (b0 := repeat false 2000).
  set (b1 := repeat false 100 ++ repeat true 400 ++ repeat false 700 ++
             repeat true 400 ++ repeat false 400).
  set (bin := repeat b0 y0 ++ repeat b1 600 ++ repeat b0 (400 - y0)).
  (* the array of the gray image *)
  assert (Earr : np.array alloc (ImageOps.grayscale (two_frames_sheet y0 bg fg))
                 = Ok arr).
  { unfold np.array, ImageOps.grayscale, Image.convert_L, two_frames_sheet,
      two_rect_row.
    cbn [width height im_data im_mode].
    change (2000 * 1000) with 2000000. rewrite Halloc. f_equal.
    rewrite !map_app, !map_repeat, !map_app, !map_repeat.
    cbn [Image.luma nth].
    replace (1000 - y0 - 600)%nat with (400 - y0)%nat by lia.
    reflexivity. }
  (* its statistics *)
  assert (En : np.size arr = 2000000).
  { unfold arr, r0, r1.
    autorewrite with banded. of_nat_literals. lia. }
  assert (Es1 : np.sum arr = 1520000 * bg + 480000 * fg).
  { unfold arr, r0, r1.
    autorewrite with banded.
    rewrite Nat2Z.inj_sub by exact Hy. of_nat_literals. ring. }
  assert (Es2 : np.sum_sq arr = 1520000 * (bg * bg) + 480000 * (fg * fg)).
  { unfold arr, r0, r1.
    autorewrite with banded.
    rewrite Nat2Z.inj_sub by exact Hy. of_nat_literals. ring. }
  set (T := np.floor_threshold (np.size arr) (np.sum arr) (np.sum_sq arr)).
  assert (HD : (np.size arr) * (np.sum_sq arr) - (np.sum arr) * (np.sum arr)
               = 729600000000 * ((fg - bg) * (fg - bg))).
  { rewrite En, Es1, Es2. ring. }
  assert (Hsq : 0 < (fg - bg) * (fg - bg)) by nia.
  assert (HTbg : (T <? bg) = false).
  { unfold T. rewrite floor_threshold_exact by (rewrite ?HD; lia).
    unfold np.above_mean_plus_half_std.
    replace (np.sum arr <? np.size arr * bg) with false; [reflexivity |].
    symmetry. apply Z.ltb_ge. rewrite En, Es1. lia. }
  assert (HTfg : (T <? fg) = true).
  { unfold T. rewrite floor_threshold_exact by (rewrite ?HD; lia).
    unfold np.above_mean_plus_half_std. rewrite HD.
    apply andb_true_iff. split; apply Z.ltb_lt.
    - rewrite En, Es1. lia.
    - replace (np.size arr * fg - np.sum arr) with (1520000 * (fg - bg))
        by (rewrite En, Es1; ring).
      lia. }
  (* the mask *)
  assert (Ebin : map (map (fun v => T <? v)) arr = bin).
  { unfold arr, r0, r1, bin, b0, b1.
    rewrite !map_app, !map_repeat, !map_app, !map_repeat.
    rewrite HTbg, HTfg. reflexivity. }
  (* the column sums *)
  assert (Ecs : np.sum_axis0 2000 bin
                = repeat 0 100 ++ repeat 600 400 ++ repeat 0 700 ++
                  repeat 600 400 ++ repeat 0 400).
  { unfold np.sum_axis0, bin, b0.
    rewrite !fold_right_app.
    rewrite (add_rows_repeat (repeat false 2000) (400 - y0)) by reflexivity.
    rewrite zip_add_false by reflexivity.
    rewrite (add_rows_repeat b1 600) by reflexivity.
    rewrite (add_rows_repeat (repeat false 2000) y0) by reflexivity.
    rewrite zip_add_false by reflexivity.
    reflexivity. }
  assert (Erows : Z.of_nat (length arr) = 1000).
  { unfold arr. autorewrite with banded. lia. }
  unfold detect_film_frames, detect_body.
  rewrite Earr. cbn [bind]. cbv zeta.
  fold T. rewrite Ebin, Erows.
  change (Z.to_nat (width (ImageOps.grayscale (two_frames_sheet y0 bg fg))))
    with 2000%nat.
  rewrite Ecs, scan_two_runs. cbn [frames].
  unfold bin.
  rewrite (close_run_band _ b0 b1 y0 599 (400 - y0) 100 500 [])
    by (reflexivity || lia).
  rewrite (close_run_band _ b0 b1 y0 599 (400 - y0) 1200 1600 _)
    by (reflexivity || lia).
  cbn [List.app width height two_frames_sheet].
  replace (Z.of_nat y0 + Z.of_nat 599 + 10) with (Z.of_nat y0 + 609) by lia.
  reflexivity.
Qed.

Lemma two_frames_sheet_detected_witness :
  detect_film_frames (fun _ => true) (two_frames_sheet 200 0 255)
  = [(90, 190, 510, 809); (1190, 190, 1610, 809)].
Proof.
  apply (two_frames_sheet_detected (fun _ => true) 200 0 255).
  - reflexivity.
  - lia.
  - lia.
Defined.

(* ================================================================== *)
(** ** Scan queue *)

(** C9. A request to enqueue with a resolution below 75 or above 6400 is
    turned down as invalid settings before anything is touched: the queue,
    and the whole application state, are as before the call. *)
Theorem add_to_queue_rejects_resolution :
  forall dir_exists create makedirs now (a : app),
    resolution (vars a) < 75 \/ 6400 < resolution (vars a) ->
    add_to_queue dir_exists create makedirs now a = (InvalidSettings, a) /\
    scan_queue (snd (add_to_queue dir_exists create makedirs now a)) = scan_queue a.
Proof.
  intros dir_exists create makedirs now a H.
  assert (E : (resolution (vars a) <? 75) || (6400 <? resolution (vars a)) = true).
  { apply orb_true_iff. destruct H as [H | H]; [left | right];
      apply Z.ltb_lt; exact H. }
  unfold add_to_queue. rewrite E. split; reflexivity.
Qed.

Lemma add_to_queue_rejects_resolution_witness :
  add_to_queue true true (Ok tt) "10:00:00"
    (set_vars (set_resolution 50 default_vars) three_jobs)
  = (InvalidSettings, set_vars (set_resolution 50 default_vars) three_jobs).
Proof.
  apply (add_to_queue_rejects_resolution true true (Ok tt) "10:00:00"
           (set_vars (set_resolution 50 default_vars) three_jobs)).
  left. simpl. lia.
Defined.

(** A resolution inside the range is appended at the tail. *)
Lemma add_to_queue_accepts : forall now (a : app),
  75 <= resolution (vars a) <= 6400 ->
  scan_queue (snd (add_to_queue true false (Ok tt) now a))
    = scan_queue a ++ [mkItem (vars a) now].
Proof.
  intros now a [H1 H2]. unfold add_to_queue.
  replace (resolution (vars a) <? 75) with false by (symmetry; apply Z.ltb_ge; lia).
  replace (6400 <? resolution (vars a)) with false by (symmetry; apply Z.ltb_ge; lia).
  simpl. unfold update_queue_display.
  destruct ((0 <? _)%nat && _); reflexivity.
Qed.

(** While a worker runs, the flag stays set and the start button stays
    disabled, whatever the operator and the worker do. *)
Lemma running_step_invariant : forall (a : app) (ev : running_event),
  queue_processing a = true ->
  process_queue_btn a = DISABLED ->
  queue_processing (running_step a ev) = true /\
  process_queue_btn (running_step a ev) = DISABLED /\
  workers (running_step a ev) = workers a.
Proof.
  intros a ev Hp Hb.
  assert (U : forall b, queue_processing b = true ->
            queue_processing (update_queue_display b) = true /\
            process_queue_btn (update_queue_display b) = DISABLED /\
            workers (update_queue_display b) = workers b).
  { intros b Hb'. unfold update_queue_display. rewrite Hb'.
    rewrite andb_false_r. simpl. auto. }
  destruct ev; simpl.
  - rewrite Hb. auto.
  - unfold add_to_queue.
    destruct ((resolution (vars a) <? 75) || (6400 <? resolution (vars a))); simpl; auto.
    destruct dir_exists; simpl.
    + apply (U (set_scan_queue _ a)). exact Hp.
    + destruct create; simpl; auto.
      destruct makedirs; simpl; auto.
      apply (U (set_scan_queue _ a)). exact Hp.
  - unfold clear_queue. destruct (scan_queue a); auto.
    destruct confirmed; auto.
    apply (U (set_scan_queue _ a)). exact Hp.
  - auto.
  - auto.
  - apply U. exact Hp.
  - auto.
Qed.

Lemma running_invariant : forall (evs : list running_event) (a : app),
  queue_processing a = true ->
  process_queue_btn a = DISABLED ->
  queue_processing (running evs a) = true /\
  process_queue_btn (running evs a) = DISABLED /\
  workers (running evs a) = workers a.
Proof.
  induction evs as [| ev evs IH]; intros a Hp Hb; simpl.
  - auto.
  - destruct (running_step_invariant a ev Hp Hb) as (Hp' & Hb' & Hw).
    destruct (IH (running_step a ev) Hp' Hb') as (Hp'' & Hb'' & Hw').
    unfold running in *. rewrite Hw' , Hw. auto.
Qed.

(** C3 (as the code has it).  [process_queue] does not look at the running
    flag: with a job queued and the scanner connected it starts a worker
    whenever it is called.  What keeps a second worker away is the start
    button: [process_queue] disables it, and while the flag is set no click
    on it, no other action of the operator, no display refresh and no pop
    of the worker starts another worker. *)
Theorem start_button_gates_second_worker :
  forall (a : app) (evs : list running_event),
    scan_queue a <> [] ->
    scanner_ready a = true ->
    workers (process_queue a) = S (workers a) /\
    workers (running evs (process_queue a)) = S (workers a) /\
    queue_processing (running evs (process_queue a)) = true.
Proof.
  intros a evs Hq Hs.
  assert (E : process_queue a =
              set_workers (S (workers a))
                (set_process_queue_btn DISABLED
                   (set_queue_paused false (set_queue_processing true a)))).
  { unfold process_queue. destruct (scan_queue a); [contradiction |].
    rewrite Hs. reflexivity. }
  destruct (running_invariant evs (process_queue a)) as (Hp & _ & Hw).
  - rewrite E. reflexivity.
  - rewrite E. reflexivity.
  - rewrite Hw, Hp, E. auto.
Qed.

Lemma start_button_gates_second_worker_witness :
  workers (running [ClickProcessQueue; ClickProcessQueue] (process_queue three_jobs))
  = 1%nat.
Proof.
  apply (start_button_gates_second_worker three_jobs
           [ClickProcessQueue; ClickProcessQueue]).
  - discriminate.
  - reflexivity.
Defined.

(** C3 fails as stated.  With the queue already being processed by one
    worker, a further call of [process_queue] is not turned down: a second
    worker is started. *)
Lemma process_queue_while_running_spawns :
  queue_processing already_running = true /\
  workers already_running = 1%nat /\
  workers (process_queue already_running) = 2%nat.
Proof. repeat split. Qed.

Lemma generate_filename_queue : forall now (a : app),
  scan_queue (snd (generate_filename now a)) = scan_queue a /\
  queue_processing (snd (generate_filename now a)) = queue_processing a.
Proof.
  intros now a. unfold generate_filename.
  destruct (auto_increment a); simpl; auto.
Qed.

Lemma _save_frames_sync_queue : forall w found (a : app),
  scan_queue (snd (_save_frames_sync w found a)) = scan_queue a /\
  queue_processing (snd (_save_frames_sync w found a)) = queue_processing a.
Proof.
  intros w found. induction found as [| f rest IH]; intros a; simpl.
  - auto.
  - destruct (generate_filename_queue (now w) a) as [Hq Hp].
    destruct (generate_filename (now w) a) as [filename a1]; simpl in *.
    destruct (writable w filename); simpl.
    + destruct (IH (set_scanned_images (scanned_images a1 ++ [filename]) a1))
        as [Hq' Hp'].
      rewrite Hq', Hp'. simpl. auto.
    + auto.
Qed.

(** A queued scan touches neither the queue nor the running flag. *)
Lemma _do_scan_from_queue_queue : forall w q (a : app),
  scan_queue (snd (_do_scan_from_queue w q a)) = scan_queue a /\
  queue_processing (snd (_do_scan_from_queue w q a)) = queue_processing a.
Proof.
  intros w q a. unfold _do_scan_from_queue.
  destruct (acquire w q) as [image0 | e]; simpl; auto.
  destruct (_apply_transforms_from_queue w image0 q) as [img | e]; simpl; auto.
  destruct (if auto_detect (item q) then detect_film_frames (alloc w) img else [])
    as [| f found].
  - destruct (generate_filename_queue (now w) a) as [Hq Hp].
    destruct (generate_filename (now w) a) as [filename a1]; simpl in *.
    destruct (writable w filename); simpl; auto.
  - destruct (_save_frames_sync_queue w (f :: found) a) as [Hq Hp].
    destruct (_save_frames_sync w (f :: found) a) as [[u | e] a1]; simpl in *; auto.
Qed.

(** C2 on the code.  Three jobs are queued, the first scan succeeds and the
    device transfer of the second fails.  The worker stops there, the queue
    holds the second and the third job in order and the running flag is
    down; the count it hands to [_queue_complete] is 2, because [completed]
    is incremented when a job is taken, before its scan is attempted. *)
Theorem failed_job_is_counted_and_kept :
  forall (w : world) (a a1 : app) (j1 j2 j3 : queue_item) (e : exn),
    scan_queue a = [j1; j2; j3] ->
    scanner_ready a = true ->
    _do_scan_from_queue w j1 (_apply_queue_settings j1 (process_queue a)) = (Ok tt, a1) ->
    acquire w j2 = Raise e ->
    fst (_process_queue_thread w (process_queue a)) = 2 /\
    scan_queue (snd (_process_queue_thread w (process_queue a))) = [j2; j3] /\
    queue_processing (snd (_process_queue_thread w (process_queue a))) = false.
Proof.
  intros w a a1 j1 j2 j3 e Hq Hs H1 H2.
  assert (E : process_queue a =
              set_workers (S (workers a))
                (set_process_queue_btn DISABLED
                   (set_queue_paused false (set_queue_processing true a)))).
  { unfold process_queue. rewrite Hq, Hs. reflexivity. }
  assert (Hq0 : scan_queue (process_queue a) = [j1; j2; j3]).
  { rewrite E. simpl. exact Hq. }
  assert (Hp0 : queue_processing (process_queue a) = true).
  { rewrite E. reflexivity. }
  assert (Hp1 : queue_processing a1 = true).
  { destruct (_do_scan_from_queue_queue w j1
                (_apply_queue_settings j1 (process_queue a))) as [_ Hp].
    rewrite H1 in Hp. simpl in Hp. rewrite Hp. exact Hp0. }
  unfold _process_queue_thread. rewrite Hq0.
  cbn [worker_loop]. rewrite Hp0. cbn [negb]. rewrite H1.
  replace (queue_processing (set_scan_queue [j2; j3] a1)) with true
    by (symmetry; exact Hp1).
  cbn [negb].
  assert (H2' : forall b, _do_scan_from_queue w j2 b = (Raise (ScanFailed e), b)).
  { intros b. unfold _do_scan_from_queue. rewrite H2. reflexivity. }
  rewrite H2'. simpl. unfold update_queue_display. simpl. auto.
Qed.

Lemma failed_job_is_counted_and_kept_witness :
  fst (_process_queue_thread world_job2_fails (process_queue three_jobs)) = 2 /\
  scan_queue (snd (_process_queue_thread world_job2_fails (process_queue three_jobs)))
    = [job2; job3] /\
  queue_processing (snd (_process_queue_thread world_job2_fails (process_queue three_jobs)))
    = false.
Proof.
  apply (failed_job_is_counted_and_kept world_job2_fails three_jobs
           (snd (_do_scan_from_queue world_job2_fails job1
                   (_apply_queue_settings job1 (process_queue three_jobs))))
           job1 job2 job3 (DeviceError "no image data")).
  - reflexivity.
  - reflexivity.
  - reflexivity.
  - reflexivity.
Defined.

(** When every scan succeeds the queue is emptied and the count is the
    number of jobs. *)
Example three_jobs_all_succeed :
  let w := mkWorld (fun img _ => img) (fun _ => true) (fun _ => Ok gray200)
             (fun _ => true) "20240101_100000" in
  fst (_process_queue_thread w (process_queue three_jobs)) = 3 /\
  scan_queue (snd (_process_queue_thread w (process_queue three_jobs))) = [] /\
  scanned_images (snd (_process_queue_thread w (process_queue three_jobs)))
    = ["film_scan_0001.tif"; "film_scan_0002.tif"; "film_scan_0003.tif"]%string.
Proof. vm_compute. auto. Qed.

(* ================================================================== *)
(** ** Output writer: the counter *)

Lemma all_digits_app : forall s1 s2,
  all_digits s1 = true -> all_digits s2 = true ->
  all_digits (s1 ++ s2)%string = true.
Proof.
  induction s1 as [| c s1 IH]; intros s2 H1 H2; simpl in *.
  - exact H2.
  - apply andb_true_iff in H1. destruct H1 as [Hc H1].
    rewrite Hc. simpl. apply IH; assumption.
Qed.

Lemma all_digits_zeros : forall k, all_digits (zeros k) = true.
Proof. induction k as [| k IH]; simpl; [reflexivity | exact IH]. Qed.

Lemma all_digits_string_of_uint : forall u,
  all_digits (NilEmpty.string_of_uint u) = true.
Proof. induction u; simpl; try reflexivity; exact IHu. Qed.

Lemma all_digits_format_04d : forall n, all_digits (format_04d n) = true.
Proof.
  intros n. unfold format_04d. apply all_digits_app.
  - apply all_digits_zeros.
  - apply all_digits_string_of_uint.
Qed.

Lemma take_digits_app : forall d c rest,
  all_digits d = true -> is_digit c = false ->
  take_digits (d ++ String c rest)%string = d.
Proof.
  induction d as [| x d IH]; intros c rest Hd Hc; simpl in *.
  - rewrite Hc. reflexivity.
  - apply andb_true_iff in Hd. destruct Hd as [Hx Hd].
    rewrite Hx. f_equal. apply IH; assumption.
Qed.

(** Leading zeros do not change the number read back. *)
Lemma uint_of_zeros : forall k u,
  exists u', NilEmpty.uint_of_string (zeros k ++ NilEmpty.string_of_uint u)%string
             = Some u' /\ N.of_uint u' = N.of_uint u.
Proof.
  induction k as [| k IH]; intros u; simpl.
  - exists u. split; [apply NilEmpty.usu | reflexivity].
  - destruct (IH u) as (u' & E & Hn).
    exists (Decimal.D0 u'). rewrite E. simpl. split; [reflexivity | exact Hn].
Qed.

(** Round trip: the number read back from a counter name is the counter. *)
Lemma name_number_counter_name : forall c f,
  name_number (counter_name c f) = Some c.
Proof.
  intros c f. unfold name_number, counter_name.
  change (drop 10 ("film_scan_" ++ format_04d c ++ "." ++ ext_map f)%string)
    with (format_04d c ++ String "." (ext_map f))%string.
  rewrite take_digits_app by (apply all_digits_format_04d || reflexivity).
  unfold format_04d.
  destruct (uint_of_zeros (4 - String.length (NilEmpty.string_of_uint (N.to_uint c)))
              (N.to_uint c)) as (u' & E & Hn).
  rewrite E. simpl. rewrite Hn. rewrite DecimalN.Unsigned.of_to. reflexivity.
Qed.

(** Different counters give different names, whatever the formats. *)
Lemma counter_name_inj : forall c1 c2 f1 f2,
  counter_name c1 f1 = counter_name c2 f2 -> c1 = c2.
Proof.
  intros c1 c2 f1 f2 H.
  assert (E : name_number (counter_name c1 f1) = name_number (counter_name c2 f2))
    by (rewrite H; reflexivity).
  rewrite !name_number_counter_name in E. congruence.
Qed.

(** With auto-increment on, one call returns the name of the counter and
    leaves the counter one higher. *)
Lemma generate_filename_auto : forall now (a : app),
  auto_increment a = true ->
  generate_filename now a
  = (counter_name (scan_counter a) (file_format (vars a)),
     set_scan_counter (scan_counter a + 1)%N a).
Proof. intros now a H. unfold generate_filename. rewrite H. reflexivity. Qed.

(** The counter never goes down in a call, with or without auto-increment. *)
Lemma generate_filename_counter_le : forall now (a : app),
  (scan_counter a <= scan_counter (snd (generate_filename now a)))%N.
Proof.
  intros now a. unfold generate_filename.
  destruct (auto_increment a); simpl; lia.
Qed.

(** A save leaves the counter where the name generation put it, written or
    not. *)
Lemma save_single_counter : forall now written (a : app),
  auto_increment a = true ->
  scan_counter (snd (save_single now written a)) = (scan_counter a + 1)%N /\
  auto_increment (snd (save_single now written a)) = true.
Proof.
  intros now written a H. unfold save_single.
  rewrite generate_filename_auto by exact H.
  destruct written; simpl; auto.
Qed.

Lemma save_session_names : forall now steps (a : app),
  auto_increment a = true ->
  fst (save_session now steps a) = names_from (scan_counter a) (map fst steps) /\
  scan_counter (snd (save_session now steps a))
    = (scan_counter a + N.of_nat (length steps))%N.
Proof.
  intros now steps. induction steps as [| [f written] rest IH]; intros a H.
  - simpl. split; [reflexivity | lia].
  - cbn [save_session map fst length].
    set (a0 := set_vars (set_file_format f (vars a)) a).
    assert (H0 : auto_increment a0 = true) by exact H.
    destruct (save_single_counter now written a0 H0) as [Hc Ha].
    unfold save_single in *.
    rewrite generate_filename_auto in * by exact H0.
    destruct written; cbn [fst snd] in *.
    + destruct (IH _ Ha) as [IH1 IH2]. rewrite Hc in IH1, IH2.
      destruct (save_session now rest _) as [names a2]. cbn [fst snd] in *.
      subst names. split; [reflexivity |].
      rewrite IH2. subst a0. simpl. lia.
    + destruct (IH _ Ha) as [IH1 IH2]. rewrite Hc in IH1, IH2.
      destruct (save_session now rest _) as [names a2]. cbn [fst snd] in *.
      subst names. split; [reflexivity |].
      rewrite IH2. subst a0. simpl. lia.
Qed.

Lemma names_from_above : forall formats c,
  Forall (fun name => exists k, name_number name = Some k /\ (c <= k)%N)
    (names_from c formats).
Proof.
  induction formats as [| f rest IH]; intros c; simpl.
  - constructor.
  - constructor.
    + exists c. split; [apply name_number_counter_name | lia].
    + eapply Forall_impl; [| apply (IH (c + 1)%N)].
      intros name (k & E & Hk). exists k. split; [exact E | lia].
Qed.

Lemma names_from_sorted : forall formats c,
  StronglySorted name_lt (names_from c formats).
Proof.
  induction formats as [| f rest IH]; intros c; simpl.
  - constructor.
  - constructor.
    + apply IH.
    + eapply Forall_impl; [| apply (names_from_above rest (c + 1)%N)].
      intros name (k & E & Hk). unfold name_lt.
      rewrite name_number_counter_name, E. lia.
Qed.

Lemma names_from_NoDup : forall formats c, NoDup (names_from c formats).
Proof.
  induction formats as [| f rest IH]; intros c; simpl.
  - constructor.
  - constructor; [| apply IH].
    intro Hin.
    pose proof (names_from_above rest (c + 1)%N) as Hall.
    rewrite Forall_forall in Hall.
    destruct (Hall _ Hin) as (k & E & Hk).
    rewrite name_number_counter_name in E. injection E as E. lia.
Qed.

(** C8. With auto-increment on, a session of N name generations, each
    followed by a save that may or may not go through, returns N names that
    carry the numbers c, c + 1, ... of the counter in this order: they are
    strictly increasing and pairwise distinct, and the counter ends N higher
    whatever the outcome of the saves, so no number is handed out twice. *)
Theorem counter_names_strictly_increase :
  forall now (steps : list (file_format_t * bool)) (a : app),
    auto_increment a = true ->
    let names := fst (save_session now steps a) in
    names = names_from (scan_counter a) (map fst steps) /\
    length names = length steps /\
    StronglySorted name_lt names /\
    NoDup names /\
    scan_counter (snd (save_session now steps a))
      = (scan_counter a + N.of_nat (length steps))%N.
Proof.
  intros now steps a H names.
  destruct (save_session_names now steps a H) as [E Hc].
  subst names. rewrite E.
  split; [reflexivity |].
  split.
  { clear. generalize (scan_counter a).
    induction steps as [| s rest IH]; intros c; simpl; [reflexivity |].
    f_equal. apply IH. }
  split; [apply names_from_sorted |].
  split; [apply names_from_NoDup | exact Hc].
Qed.

Lemma counter_names_strictly_increase_witness :
  fst (save_session "20240101_100000"
         [(TIFF, true); (PNG, false); (JPEG, true)] (init_app true))
  = ["film_scan_0001.tif"; "film_scan_0002.png"; "film_scan_0003.jpg"]%string /\
  scan_counter (snd (save_session "20240101_100000"
         [(TIFF, true); (PNG, false); (JPEG, true)] (init_app true))) = 4%N.
Proof.
  destruct (counter_names_strictly_increase "20240101_100000"
              [(TIFF, true); (PNG, false); (JPEG, true)] (init_app true))
    as (E & _ & _ & _ & Hc).
  - reflexivity.
  - split; [exact E | exact Hc].
Defined.

(* ================================================================== *)
(** * Further properties *)

(** ** The two copies of the pipeline *)

(** The queue's stages are the body of [apply_adjustments] on the rotated
    and flipped image. *)
Lemma queue_stages_are_adjustments_body : forall (w : world) (img : image) (q : queue_item),
  _apply_transforms_from_queue w img q
  = adjustments_body (item q)
      (let i1 := if negb (rotation_angle (item q) =? 0)
                 then rotate w img (- rotation_angle (item q)) else img in
       let i2 := if flip_horizontal (item q) then ImageOps.mirror i1 else i1 in
       if flip_vertical (item q) then ImageOps.flip i2 else i2).
Proof.
  intros w img q. unfold _apply_transforms_from_queue, adjustments_body, copy.
  cbv zeta.
  repeat (f_equal; try reflexivity).
Qed.

(** X1. The pipeline of a queued job and the interactive pipeline agree
    whenever the queued one returns: on the settings of the job they give
    the same image.  When a stage raises, the queued pipeline raises, and
    the interactive one returns the image with only rotation and flips
    applied. *)
Theorem queue_pipeline_agrees_with_interactive :
  forall (w : world) (img : image) (q : queue_item),
    match _apply_transforms_from_queue w img q with
    | Ok out => apply_all_transforms (rotate w) (item q) img = out
    | Raise _ =>
        apply_all_transforms (rotate w) (item q) img
        = apply_all_transforms (rotate w) (geometry_only (item q)) img
    end.
Proof.
  intros w img q. rewrite queue_stages_are_adjustments_body.
  unfold apply_all_transforms, copy. cbv zeta.
  cbn [geometry_only rotation_angle flip_horizontal flip_vertical].
  set (pre := if flip_vertical (item q) then _ else _).
  assert (G : apply_adjustments (geometry_only (item q)) pre = pre) by reflexivity.
  rewrite G. unfold apply_adjustments.
  destruct (adjustments_body (item q) pre) as [out | e]; reflexivity.
Qed.

(** ** Samples stay samples *)

Lemma wf_image_spec : forall im,
  wf_image im = true <->
  (0 <= width im /\ 0 <= height im /\
   length (im_data im) = Z.to_nat (height im) /\
   Forall (fun row =>
     length row = Z.to_nat (width im) /\
     Forall (fun px =>
       length px = bands (im_mode im) /\
       Forall (fun v => sample_ok (im_mode im) v = true) px) row) (im_data im)).
Proof.
  intros im. split.
  - intros H. destruct (wf_image_inv im H) as [Hh Hrows].
    unfold wf_image in H.
    repeat (apply andb_true_iff in H; destruct H as [H ?]).
    apply Z.leb_le in H. apply Z.leb_le in H2. auto.
  - intros (Hw & Hh & Hlen & Hrows). unfold wf_image.
    repeat (apply andb_true_iff; split).
    + apply Z.leb_le. exact Hw.
    + apply Z.leb_le. exact Hh.
    + apply Z.eqb_eq. lia.
    + apply forallb_forall. intros row Hin.
      rewrite Forall_forall in Hrows. destruct (Hrows row Hin) as [Hl Hpx].
      apply andb_true_iff. split; [apply Z.eqb_eq; lia |].
      apply forallb_forall. intros px Hpin.
      rewrite Forall_forall in Hpx. destruct (Hpx px Hpin) as [Hb Hs].
      apply andb_true_iff. split; [apply Nat.eqb_eq; exact Hb |].
      apply forallb_forall. rewrite Forall_forall in Hs. exact Hs.
Qed.

(** A map over the samples keeps an image well formed when it sends samples
    of the old mode to samples of the new one, the number of bands being the
    same. *)
Lemma wf_map_samples : forall (im : image) (m' : mode) (f : Z -> Z),
  wf_image im = true ->
  bands m' = bands (im_mode im) ->
  (forall v, sample_ok (im_mode im) v = true -> sample_ok m' (f v) = true) ->
  wf_image (mkImage m' (width im) (height im) (map_samples f (im_data im))) = true.
Proof.
  intros im m' f Hwf Hb Hf.
  apply wf_image_spec in Hwf. destruct Hwf as (Hw & Hh & Hlen & Hrows).
  apply wf_image_spec. cbn [width height im_data im_mode].
  repeat split; try assumption.
  - unfold map_samples. rewrite length_map. exact Hlen.
  - unfold map_samples. apply Forall_map.
    eapply Forall_impl; [| exact Hrows]. intros row [Hl Hpx]. cbn beta.
    split; [rewrite length_map; exact Hl |].
    apply Forall_map.
    eapply Forall_impl; [| exact Hpx]. intros px [Hbp Hs]. cbn beta.
    split; [rewrite length_map; congruence |].
    apply Forall_map.
    eapply Forall_impl; [| exact Hs]. intros v Hv. cbn beta. apply Hf. exact Hv.
Qed.

Lemma range_sample_ok : forall m v,
  m <> Mode1 -> 0 <= v <= 255 -> sample_ok m v = true.
Proof.
  intros m v Hm [H0 H1]. destruct m; [contradiction | |];
    simpl; apply andb_true_iff; split; apply Z.leb_le; assumption.
Qed.

(** Adding a product to the float 0 changes neither cast of it. *)
Lemma add32_zero_casts : forall p : spec_float,
  fp.cast_uint8 (fp.add32 (fp.of_Z 0) p) = fp.cast_uint8 p /\
  fp.clip_uint8 (fp.add32 (fp.of_Z 0) p) = fp.clip_uint8 p.
Proof.
  intros p. destruct p as [sg | sg | | sg m e];
    try (split; reflexivity).
  destruct sg; split; reflexivity.
Qed.

(** A float that compares equal to 0 is a zero. *)
Lemma eqb_Q_zero : forall x : spec_float,
  fp.eqb_Q x 0 = true -> exists sg, x = S754_zero sg.
Proof.
  intros x H. destruct x as [sg | sg | | sg m e]; try discriminate H.
  - exists sg. reflexivity.
  - exfalso. cbn [fp.eqb_Q fp.to_Q] in H. apply Qeq_bool_iff in H.
    destruct sg, e as [| p | p]; unfold Qeq, inject_Z in H; cbn in H; lia.
Qed.

(** About the pivot 0 the scaled sample is the product. *)
Lemma scale_about_zero : forall (b : Q) (v : Z),
  scale_about 0 b v = scale_by b v.
Proof.
  intros b v. unfold scale_about, scale_by. cbv zeta.
  rewrite Z.sub_0_r.
  destruct (add32_zero_casts (fp.mul32 (Image.alpha32 b) (fp.of_Z v))) as [A1 A2].
  rewrite A1, A2.
  destruct (fp.eqb_Q (Image.alpha32 b) 0) eqn:C0; [| reflexivity].
  destruct (eqb_Q_zero _ C0) as [sg E]. rewrite E.
  destruct v as [| p | p]; destruct sg; reflexivity.
Qed.

(** X2. On a well-formed gray or colour image, with every other adjustment
    at rest, a brightness factor [b] other than 1.0 multiplies every sample
    by [b] in single precision ([b] and the product are each rounded to a
    float), drops the fraction and clips the result to [0, 255]; mode and
    size are kept. *)
Theorem brightness_multiplies_and_clamps :
  forall (img : image) (b : Q),
    wf_image img = true ->
    im_mode img <> Mode1 ->
    Qeq_bool b 1 = false ->
    apply_adjustments (set_brightness b default_vars) img
    = mkImage (im_mode img) (width img) (height img)
        (map_samples (scale_by b) (im_data img)).
Proof.
  intros img b Hwf Hmode Hb.
  unfold apply_adjustments, adjustments_body, copy.
  cbn [set_brightness default_vars brightness contrast exposure invert_negative
       remove_dust].
  rewrite Hb. cbn [negb].
  unfold ImageEnhance.brightness.
  rewrite (blend_solid_scales img b 0 Hwf Hmode).
  cbn [bind]. change (Qeq_bool 1 1) with true. change (Qeq_bool 0 0) with true.
  cbn [negb bind]. f_equal.
  apply map_samples_ext. apply scale_about_zero.
Qed.

Lemma brightness_multiplies_and_clamps_witness :
  apply_adjustments (set_brightness (13 # 10) default_vars) gray_pair
  = mkImage ModeL 2 1 [ [[130]; [202]] ].
Proof.
  rewrite (brightness_multiplies_and_clamps gray_pair (13 # 10)).
  - reflexivity.
  - reflexivity.
  - discriminate.
  - reflexivity.
Defined.

(** Brightness 1.3 on the sample 90 gives 116: the float nearest to 1.3 is
    below 1.3, and so is its product with 90 below 117. *)
Example brightness_rounds_in_single_precision :
  im_data (apply_adjustments (set_brightness (13 # 10) default_vars)
             (mkImage ModeL 1 1 [ [[90]] ]))
  = [ [[116]] ].
Proof. reflexivity. Qed.

Lemma bind_Ok_inv : forall (A B : Type) (r : result A) (k : A -> result B) (b : B),
  bind r k = Ok b -> exists a, r = Ok a /\ k a = Ok b.
Proof.
  intros A B [a | e] k b H; simpl in H; [| discriminate].
  exists a. split; [reflexivity | exact H].
Qed.

Lemma mapi_from_length : forall (A B : Type) (f : nat -> A -> B) (l : list A) (i : nat),
  length (ImageFilter.mapi_from i f l) = length l.
Proof.
  intros A B f l. induction l as [| a l IH]; intros i; simpl;
    [reflexivity | rewrite IH; reflexivity].
Qed.

Lemma Forall_mapi_from :
  forall (A B : Type) (P : B -> Prop) (f : nat -> A -> B) (l : list A) (i : nat),
    (forall k a, nth_error l k = Some a -> P (f (i + k)%nat a)) ->
    Forall P (ImageFilter.mapi_from i f l).
Proof.
  intros A B P f l. induction l as [| a l IH]; intros i H; simpl.
  - constructor.
  - constructor.
    + rewrite <- (Nat.add_0_r i). apply H. reflexivity.
    + apply IH. intros k b Hk.
      replace (S i + k)%nat with (i + S k)%nat by lia.
      apply H. exact Hk.
Qed.

Lemma insert_sorted_Forall : forall (P : Z -> Prop) (v : Z) (l : list Z),
  P v -> Forall P l -> Forall P (ImageFilter.insert_sorted v l).
Proof.
  intros P v l Hv Hl. induction Hl as [| h t Hh Ht IH]; simpl.
  - constructor; [exact Hv | constructor].
  - destruct (v <=? h); constructor; auto.
Qed.

Lemma insert_sorted_length : forall (v : Z) (l : list Z),
  length (ImageFilter.insert_sorted v l) = S (length l).
Proof.
  intros v l. induction l as [| h t IH]; simpl; [reflexivity |].
  destruct (v <=? h); simpl; [reflexivity | rewrite IH; reflexivity].
Qed.

Lemma sort_Forall : forall (P : Z -> Prop) (l : list Z),
  Forall P l -> Forall P (ImageFilter.sort l).
Proof.
  intros P l H. induction H as [| h t Hh Ht IH]; simpl.
  - constructor.
  - apply insert_sorted_Forall; assumption.
Qed.

Lemma sort_length : forall l : list Z, length (ImageFilter.sort l) = length l.
Proof.
  induction l as [| h t IH]; simpl; [reflexivity |].
  rewrite insert_sorted_length, IH. reflexivity.
Qed.

Lemma clamp_index_lt : forall (n : nat) (i : Z),
  (0 < n)%nat -> (ImageFilter.clamp_index n i < n)%nat.
Proof. intros n i H. unfold ImageFilter.clamp_index. lia. Qed.

(** With the edge replicated, every neighbour of a pixel of a well-formed
    image is a pixel of the image. *)
Lemma sample_at_ok :
  forall (P : Z -> Prop) (rows : list (list pixel)) (w b : nat) (x y : Z) (c : nat),
    rows <> [] -> (0 < w)%nat -> (c < b)%nat ->
    Forall (fun row =>
      length row = w /\
      Forall (fun px : pixel => length px = b /\ Forall P px) row) rows ->
    P (ImageFilter.sample_at rows x y c).
Proof.
  intros P rows w b x y c Hne Hw Hc Hrows.
  unfold ImageFilter.sample_at.
  assert (Hn : (0 < length rows)%nat)
    by (destruct rows; [contradiction | simpl; lia]).
  set (row := nth (ImageFilter.clamp_index (length rows) y) rows []).
  assert (Hrow : In row rows)
    by (apply nth_In; apply clamp_index_lt; exact Hn).
  rewrite Forall_forall in Hrows. destruct (Hrows row Hrow) as [Hl Hpx].
  set (px := nth (ImageFilter.clamp_index (length row) x) row []).
  assert (Hpxin : In px row)
    by (apply nth_In; apply clamp_index_lt; lia).
  rewrite Forall_forall in Hpx. destruct (Hpx px Hpxin) as [Hb Hs].
  rewrite Forall_forall in Hs. apply Hs. apply nth_In. lia.
Qed.

Lemma median3_ok :
  forall (P : Z -> Prop) (rows : list (list pixel)) (w b : nat) (x y : Z) (c : nat),
    rows <> [] -> (0 < w)%nat -> (c < b)%nat ->
    Forall (fun row =>
      length row = w /\
      Forall (fun px : pixel => length px = b /\ Forall P px) row) rows ->
    P (ImageFilter.median3 rows x y c).
Proof.
  intros P rows w b x y c Hne Hw Hc Hrows.
  unfold ImageFilter.median3.
  assert (HW : Forall P (ImageFilter.window3 rows x y c)).
  { unfold ImageFilter.window3. cbn [flat_map map List.app].
    repeat constructor; eapply sample_at_ok; eassumption. }
  assert (HS : Forall P (ImageFilter.sort (ImageFilter.window3 rows x y c)))
    by (apply sort_Forall; exact HW).
  rewrite Forall_forall in HS. apply HS. apply nth_In.
  rewrite sort_length. unfold ImageFilter.window3.
  cbn [flat_map map List.app length]. lia.
Qed.

(** The median filter keeps an image well formed, with its mode and size. *)
Lemma median_filter_wf : forall im : image,
  wf_image im = true ->
  wf_image (ImageFilter.median_filter im) = true.
Proof.
  intros im Hwf. apply wf_image_spec in Hwf.
  destruct Hwf as (Hw & Hh & Hlen & Hrows).
  apply wf_image_spec. unfold ImageFilter.median_filter, ImageFilter.mapi.
  cbn [width height im_data im_mode].
  repeat split; try assumption.
  - rewrite mapi_from_length. exact Hlen.
  - apply Forall_mapi_from. intros y row Hy. cbn beta.
    assert (Hrow : In row (im_data im)) by (eapply nth_error_In; exact Hy).
    pose proof Hrows as Hall. rewrite Forall_forall in Hall.
    destruct (Hall row Hrow) as [Hl Hpx].
    split; [rewrite mapi_from_length; exact Hl |].
    apply Forall_mapi_from. intros x px Hx. cbn beta.
    assert (Hpin : In px row) by (eapply nth_error_In; exact Hx).
    rewrite Forall_forall in Hpx. destruct (Hpx px Hpin) as [Hb Hs].
    split; [rewrite mapi_from_length; exact Hb |].
    apply Forall_mapi_from. intros c v Hc. cbn beta.
    apply (median3_ok (fun v => sample_ok (im_mode im) v = true) (im_data im)
             (Z.to_nat (width im)) (bands (im_mode im))).
    + intro E. rewrite E in Hrow. contradiction.
    + rewrite <- Hl. destruct row; [contradiction | simpl; lia].
    + rewrite <- Hb. cbn [Nat.add]. apply nth_error_Some. rewrite Hc. discriminate.
    + exact Hrows.
Qed.

Lemma scale_about_sample_ok : forall (m : mode) (pivot : Z) (c : Q) (v : Z),
  m <> Mode1 -> 0 <= pivot <= 255 -> 0 <= v <= 255 ->
  sample_ok m (scale_about pivot c v) = true.
Proof.
  intros m pivot c v Hm Hp Hv. apply range_sample_ok; [exact Hm |].
  apply scale_about_range; assumption.
Qed.

Lemma brightness_stage_wf : forall (img out : image) (f : Q),
  wf_image img = true ->
  ImageEnhance.brightness img f = Ok out ->
  wf_image out = true /\ width out = width img /\ height out = height img.
Proof.
  intros img out f Hwf H. unfold ImageEnhance.brightness in H.
  destruct (mode_eqb (im_mode img) Mode1) eqn:Em.
  - rewrite blend_Mode1 in H by (destruct (im_mode img); [reflexivity | discriminate ..]).
    discriminate.
  - assert (Hmode : im_mode img <> Mode1) by (intro E; rewrite E in Em; discriminate).
    rewrite (blend_solid_scales img f 0 Hwf Hmode) in H.
    injection H as H. subst out. cbn [width height].
    split; [| split; reflexivity].
    apply wf_map_samples; [exact Hwf | reflexivity |].
    intros v Hv. apply scale_about_sample_ok; [exact Hmode | lia |].
    apply (sample_ok_range (im_mode img)). exact Hv.
Qed.

Lemma contrast_stage_wf : forall (img out : image) (c : Q),
  wf_image img = true ->
  ImageEnhance.contrast img c = Ok out ->
  wf_image out = true /\ width out = width img /\ height out = height img.
Proof.
  intros img out c Hwf H.
  destruct (mode_eqb (im_mode img) Mode1) eqn:Em.
  - unfold ImageEnhance.contrast in H. cbv zeta in H.
    rewrite blend_Mode1 in H
      by (destruct (im_mode img); [reflexivity | discriminate ..]).
    discriminate.
  - assert (Hmode : im_mode img <> Mode1) by (intro E; rewrite E in Em; discriminate).
    rewrite (contrast_enhancer_scales_about_mean img c Hwf Hmode) in H.
    injection H as H. subst out. cbn [width height].
    split; [| split; reflexivity].
    apply wf_map_samples; [exact Hwf | reflexivity |].
    intros v Hv. apply scale_about_sample_ok.
    + exact Hmode.
    + apply mean_luma_range. exact Hwf.
    + apply (sample_ok_range (im_mode img)). exact Hv.
Qed.

Lemma exposure_stage_wf : forall (img : image) (factor : spec_float),
  wf_image img = true ->
  wf_image (np.scale_clip img factor) = true.
Proof.
  intros img factor Hwf. unfold np.scale_clip.
  apply wf_map_samples.
  - exact Hwf.
  - destruct (im_mode img); reflexivity.
  - intros v _. apply range_sample_ok.
    + destruct (im_mode img); discriminate.
    + apply clip_uint8_range.
Qed.

Lemma invert_stage_wf : forall img : image,
  wf_image img = true -> im_mode img <> Mode1 ->
  wf_image (ImageOps.invert img) = true.
Proof.
  intros img Hwf Hmode. unfold ImageOps.invert.
  apply wf_map_samples; [exact Hwf | reflexivity |].
  intros v Hv. apply sample_ok_range in Hv.
  apply range_sample_ok; [exact Hmode | lia].
Qed.

(** X3. The adjustments never leave the sample range and never change the
    size: on a well-formed image, whatever the settings, the result of
    [apply_adjustments] is a well-formed image of the same width and
    height. *)
Theorem apply_adjustments_keeps_well_formed :
  forall (s : settings) (img : image),
    wf_image img = true ->
    wf_image (apply_adjustments s img) = true /\
    width (apply_adjustments s img) = width img /\
    height (apply_adjustments s img) = height img.
Proof.
  intros s img Hwf. unfold apply_adjustments.
  destruct (adjustments_body s img) as [out | e] eqn:Hbody; [| auto].
  unfold adjustments_body, copy in Hbody.
  apply bind_Ok_inv in Hbody. destruct Hbody as (i1 & H1 & Hbody).
  apply bind_Ok_inv in Hbody. destruct Hbody as (i2 & H2 & Hbody).
  apply bind_Ok_inv in Hbody. destruct Hbody as (i3 & H3 & Hbody).
  apply bind_Ok_inv in Hbody. destruct Hbody as (i4 & H4 & Hbody).
  apply bind_Ok_inv in Hbody. destruct Hbody as (i5 & H5 & Hbody).
  injection Hbody as Hbody. subst out.
  assert (G1 : wf_image i1 = true /\ width i1 = width img /\ height i1 = height img).
  { destruct (negb (Qeq_bool (brightness s) 1)).
    - eapply brightness_stage_wf; eassumption.
    - injection H1 as H1. subst i1. auto. }
  destruct G1 as (W1 & A1 & B1).
  assert (G2 : wf_image i2 = true /\ width i2 = width i1 /\ height i2 = height i1).
  { destruct (negb (Qeq_bool (contrast s) 1)).
    - eapply contrast_stage_wf; eassumption.
    - injection H2 as H2. subst i2. auto. }
  destruct G2 as (W2 & A2 & B2).
  assert (G3 : wf_image i3 = true /\ width i3 = width i2 /\ height i3 = height i2).
  { destruct (negb (Qeq_bool (exposure s) 0)); injection H3 as H3; subst i3.
    - split; [apply exposure_stage_wf; exact W2 | split; reflexivity].
    - auto. }
  destruct G3 as (W3 & A3 & B3).
  assert (G4 : wf_image i4 = true /\ width i4 = width i3 /\ height i4 = height i3).
  { destruct (invert_negative s); [| injection H4 as H4; subst i4; auto].
    destruct (im_mode i3) eqn:Em; injection H4 as H4; subst i4.
    - auto.
    - split; [apply invert_stage_wf; [exact W3 | congruence] | split; reflexivity].
    - split; [apply invert_stage_wf; [exact W3 | congruence] | split; reflexivity]. }
  destruct G4 as (W4 & A4 & B4).
  assert (G5 : wf_image i5 = true /\ width i5 = width i4 /\ height i5 = height i4).
  { destruct (remove_dust s); injection H5 as H5; subst i5.
    - split; [apply median_filter_wf; exact W4 | split; reflexivity].
    - auto. }
  destruct G5 as (W5 & A5 & B5).
  split; [exact W5 |]. split; congruence.
Qed.

Lemma apply_adjustments_keeps_well_formed_witness :
  wf_image (apply_adjustments (set_remove_dust true (set_contrast 2 default_vars))
              gray_pair) = true.
Proof.
  apply (apply_adjustments_keeps_well_formed
           (set_remove_dust true (set_contrast 2 default_vars)) gray_pair).
  reflexivity.
Defined.

(** ** Inversion, flips and the rotation angle *)

Lemma map_samples_map_samples : forall (f g : Z -> Z) (rows : list (list pixel)),
  map_samples f (map_samples g rows) = map_samples (fun v => f (g v)) rows.
Proof.
  intros f g rows. unfold map_samples. rewrite map_map.
  apply map_ext. intros row. rewrite map_map.
  apply map_ext. intros px. apply map_map.
Qed.

Lemma invert_only_cases : forall img : image,
  apply_adjustments invert_only img
  = match im_mode img with
    | Mode1 => img
    | _ => ImageOps.invert img
    end.
Proof.
  intros img. unfold apply_adjustments, adjustments_body, copy.
  cbn [invert_only set_invert_negative default_vars brightness contrast exposure
       invert_negative remove_dust].
  change (Qeq_bool 1 1) with true. change (Qeq_bool 0 0) with true.
  cbn [negb bind]. destruct (im_mode img); reflexivity.
Qed.

(** X4. Inverting twice gives the image back: with inversion as the only
    adjustment, [apply_adjustments] applied to its own result returns the
    original image, for every mode (on a bilevel image inversion is skipped
    both times). *)
Theorem invert_twice_is_identity : forall img : image,
  apply_adjustments invert_only (apply_adjustments invert_only img) = img.
Proof.
  intros img. rewrite !invert_only_cases.
  assert (I : forall i, ImageOps.invert (ImageOps.invert i) = i).
  { intros [m w h d]. unfold ImageOps.invert.
    cbn [im_mode width height im_data]. f_equal.
    rewrite map_samples_map_samples.
    rewrite <- (map_samples_id d) at 2.
    unfold map_samples. apply map_ext. intros row.
    apply map_ext. intros px. apply map_ext. intros v. lia. }
  destruct (im_mode img) eqn:Em.
  - rewrite Em. reflexivity.
  - change (im_mode (ImageOps.invert img)) with (im_mode img). rewrite Em. apply I.
  - change (im_mode (ImageOps.invert img)) with (im_mode img). rewrite Em. apply I.
Qed.

Lemma mirror_mirror : forall img, ImageOps.mirror (ImageOps.mirror img) = img.
Proof.
  intros [m w h d]. unfold ImageOps.mirror. cbn [im_mode width height im_data].
  f_equal. rewrite map_map. rewrite <- (map_id d) at 2.
  apply map_ext. intros row. apply rev_involutive.
Qed.

Lemma flip_flip : forall img, ImageOps.flip (ImageOps.flip img) = img.
Proof.
  intros [m w h d]. unfold ImageOps.flip. cbn [im_mode width height im_data].
  f_equal. apply rev_involutive.
Qed.

Lemma mirror_flip_commute : forall img,
  ImageOps.mirror (ImageOps.flip img) = ImageOps.flip (ImageOps.mirror img).
Proof.
  intros [m w h d]. unfold ImageOps.mirror, ImageOps.flip.
  cbn [im_mode width height im_data]. f_equal. apply map_rev.
Qed.

(** X5. Flips undo themselves: with no rotation and no adjustment, the
    pipeline applied twice with the same flip settings returns the image it
    started from, whichever of the two flips are on. *)
Theorem flips_twice_is_identity :
  forall (rot : image -> Z -> image) (fh fv : bool) (img : image),
    let s := set_flip_horizontal fh (set_flip_vertical fv default_vars) in
    apply_all_transforms rot s (apply_all_transforms rot s img) = img.
Proof.
  intros rot fh fv img s.
  assert (E : forall i,
             apply_all_transforms rot s i
             = let i1 := if fh then ImageOps.mirror i else i in
               if fv then ImageOps.flip i1 else i1).
  { intros i. subst s. destruct fh, fv; reflexivity. }
  rewrite !E. cbv zeta. destruct fh, fv.
  - rewrite mirror_flip_commute, flip_flip, mirror_mirror. reflexivity.
  - apply mirror_mirror.
  - apply flip_flip.
  - reflexivity.
Qed.

(** X6. [rotate_image] keeps the stored angle in [0, 360) and adds turns
    modulo 360: two turns in a row are the turn by the sum, so a full turn,
    a left turn followed by a right turn, or two half turns leave a stored
    angle as it is.  Without a preview image nothing changes. *)
Theorem rotate_image_normalises_and_composes :
  forall (a b : Z) (v : settings),
    0 <= rotation_angle (rotate_image true a v) < 360 /\
    rotate_image true b (rotate_image true a v) = rotate_image true (a + b) v /\
    rotate_image true (- a) (rotate_image true a (rotate_image true 0 v))
      = rotate_image true 0 v /\
    rotate_image false a v = v.
Proof.
  intros a b v.
  assert (C : forall x y u,
             rotate_image true y (rotate_image true x u) = rotate_image true (x + y) u).
  { intros x y u. unfold rotate_image, set_rotation_angle. cbn [negb rotation_angle
      resolution color_mode file_format brightness contrast exposure invert_negative
      remove_dust flip_horizontal flip_vertical auto_detect].
    f_equal. rewrite Z.add_mod_idemp_l by lia. f_equal. lia. }
  split; [| split; [| split]].
  - unfold rotate_image, set_rotation_angle. cbn [negb rotation_angle].
    apply Z.mod_pos_bound. lia.
  - apply C.
  - rewrite !C. f_equal. lia.
  - reflexivity.
Qed.

(** ** What the detector returns *)

(** Closing a run either adds nothing or adds one frame, padded and clamped,
    and only for a run more than 100 columns wide. *)
Lemma close_run_cases : forall img binary start i found,
  close_run img binary start i found = found \/
  (100 < i - start /\
   exists t b,
     close_run img binary start i found
     = found ++ [(Z.max 0 (start - 10), Z.max 0 (t - 10),
                  Z.min (width img) (i + 10), Z.min (height img) (b + 10))]).
Proof.
  intros img binary start i found. unfold close_run. cbv zeta.
  destruct (100 <? i - start) eqn:Ew; [| left; reflexivity].
  apply Z.ltb_lt in Ew.
  match goal with |- context [if ?c then _ else _] => destruct c end;
    [| left; reflexivity].
  right. split; [exact Ew |]. eexists. eexists. reflexivity.
Qed.

Lemma StronglySorted_snoc : forall (A : Type) (R : A -> A -> Prop) (l : list A) (x : A),
  StronglySorted R l -> Forall (fun y => R y x) l -> StronglySorted R (l ++ [x]).
Proof.
  intros A R l x Hs Hall. induction Hs as [| a l Hs IH Ha]; simpl.
  - constructor; constructor.
  - inversion Hall as [| ? ? Hax Hl]; subst.
    constructor; [apply IH; exact Hl |].
    apply Forall_app. split; [exact Ha | constructor; [exact Hax | constructor]].
Qed.

Lemma frame_edges : forall l t r b : Z,
  frame_left (l, t, r, b) = l /\ frame_top (l, t, r, b) = t /\
  frame_right (l, t, r, b) = r /\ frame_bottom (l, t, r, b) = b.
Proof. intros. repeat split. Qed.

Lemma scan_column_invariant : forall img binary rows (st : scan_state) (i c : Z),
  0 <= i -> i + 1 <= width img ->
  scan_invariant img i st ->
  scan_invariant img (i + 1) (scan_column img binary rows st (i, c)).
Proof.
  intros img binary rows st i c Hi HW (Hstart & Hfits & Hsorted & Hin).
  assert (Hmono : Forall (fun f => frame_fits img f /\ frame_left f + 100 < i + 1)
                    (frames st)).
  { eapply Forall_impl; [| exact Hfits]. intros f [Hf Hl]. split; [exact Hf | lia]. }
  unfold scan_column.
  destruct ((rows <? 10 * c) && negb (in_frame st)) eqn:E1.
  - (* a run starts *)
    unfold scan_invariant. cbn [frame_start frames in_frame].
    repeat split; try lia; try assumption.
    intros _. eapply Forall_impl; [| exact Hfits]. intros f [_ Hl]. exact Hl.
  - destruct ((10 * c <=? rows) && in_frame st) eqn:E2.
    + (* a run is closed *)
      apply andb_true_iff in E2. destruct E2 as [_ Ein].
      specialize (Hin Ein).
      unfold scan_invariant. cbn [frame_start frames in_frame].
      destruct (close_run_cases img binary (frame_start st) i (frames st))
        as [E | (Hw & t & b & E)]; rewrite E.
      * repeat split; try lia; try assumption; try (intros Hd; discriminate Hd).
      * split; [lia |]. split; [| split].
        -- apply Forall_app. split; [exact Hmono |].
           constructor; [| constructor].
           unfold frame_fits.
           destruct (frame_edges (Z.max 0 (frame_start st - 10)) (Z.max 0 (t - 10))
                       (Z.min (width img) (i + 10)) (Z.min (height img) (b + 10)))
             as (El & Et & Er & Eb).
           rewrite El, Et, Er, Eb. lia.
        -- apply StronglySorted_snoc; [exact Hsorted |].
           eapply Forall_impl; [| exact Hin]. intros f Hf.
           cbv beta in Hf |- *. unfold left_of.
           destruct (frame_edges (Z.max 0 (frame_start st - 10)) (Z.max 0 (t - 10))
                       (Z.min (width img) (i + 10)) (Z.min (height img) (b + 10)))
             as (El & _).
           rewrite El. lia.
        -- intros Hd; discriminate Hd.
    + (* nothing changes *)
      unfold scan_invariant. repeat split; try lia; try assumption.
Qed.

Lemma scan_columns_invariant : forall img binary rows (cs : list Z) (i : Z) (st : scan_state),
  0 <= i -> i + Z.of_nat (length cs) <= width img ->
  scan_invariant img i st ->
  scan_invariant img (i + Z.of_nat (length cs))
    (fold_left (scan_column img binary rows) (enumerate_from i cs) st).
Proof.
  intros img binary rows cs. induction cs as [| c cs IH]; intros i st Hi HW Hinv.
  - simpl. replace (i + 0) with i by lia. exact Hinv.
  - cbn [enumerate_from fold_left length] in *.
    replace (i + Z.of_nat (S (length cs))) with ((i + 1) + Z.of_nat (length cs)) by lia.
    apply IH; [lia | lia |].
    apply scan_column_invariant; [exact Hi | lia | exact Hinv].
Qed.

Lemma zip_with_length_le : forall (A B C : Type) (f : A -> B -> C) (l1 : list A) (l2 : list B),
  (length (Image.zip_with f l1 l2) <= length l2)%nat.
Proof.
  intros A B C f l1. induction l1 as [| a l1 IH]; intros [| b l2]; simpl; try lia.
  specialize (IH l2). lia.
Qed.

Lemma sum_axis0_length : forall (w : nat) (binary : list (list bool)),
  (length (np.sum_axis0 w binary) <= w)%nat.
Proof.
  intros w binary. unfold np.sum_axis0.
  induction binary as [| row binary IH]; cbn [fold_right].
  - rewrite repeat_length. lia.
  - etransitivity; [apply zip_with_length_le | exact IH].
Qed.

(** The frames of an image satisfy what the column loop keeps true. *)
Lemma detected_frames_invariant : forall (alloc : Z -> bool) (img : image),
  Forall (frame_fits img) (detect_film_frames alloc img) /\
  StronglySorted left_of (detect_film_frames alloc img).
Proof.
  intros alloc img. unfold detect_film_frames, detect_body.
  destruct (np.array alloc (ImageOps.grayscale img)) as [img_array | e];
    [| split; constructor].
  cbn [bind]. cbv zeta.
  change (width (ImageOps.grayscale img)) with (width img).
  set (binary := map _ img_array).
  set (cs := np.sum_axis0 (Z.to_nat (width img)) binary).
  assert (Hlen : (length cs <= Z.to_nat (width img))%nat)
    by apply sum_axis0_length.
  destruct (Z.le_gt_cases 0 (width img)) as [Hw | Hw].
  - assert (HW : 0 + Z.of_nat (length cs) <= width img) by lia.
    assert (H0 : scan_invariant img 0 (mkScan false 0 [])).
    { unfold scan_invariant. cbn [frame_start frames in_frame].
      repeat split; try lia; constructor. }
    destruct (scan_columns_invariant img binary (Z.of_nat (length img_array)) cs 0
                (mkScan false 0 []) (Z.le_refl 0) HW H0)
      as (_ & Hfits & Hsorted & _).
    unfold enumerate. split; [| exact Hsorted].
    eapply Forall_impl; [| exact Hfits]. intros f [Hf _]. exact Hf.
  - replace (Z.to_nat (width img)) with 0%nat in Hlen by lia.
    destruct cs as [| c cs']; [| simpl in Hlen; lia].
    simpl. split; constructor.
Qed.

(** X7. Every frame the detector returns lies inside the image, with
    [0 <= left], [0 <= top], [right <= width] and [bottom <= height], and is
    more than 100 pixels wide. *)
Theorem detected_frames_fit_the_image : forall (alloc : Z -> bool) (img : image),
  Forall (frame_fits img) (detect_film_frames alloc img).
Proof. intros alloc img. apply detected_frames_invariant. Qed.

(** X8. The detector returns its frames from left to right: in the list,
    every frame starts strictly to the left of all the frames after it, so
    no frame is returned twice. *)
Theorem detected_frames_left_to_right : forall (alloc : Z -> bool) (img : image),
  StronglySorted left_of (detect_film_frames alloc img) /\
  NoDup (detect_film_frames alloc img).
Proof.
  intros alloc img.
  destruct (detected_frames_invariant alloc img) as [_ Hs].
  split; [exact Hs |].
  induction Hs as [| f l Hs IH Hf]; constructor; [| exact IH].
  intro Hin. rewrite Forall_forall in Hf. specialize (Hf f Hin).
  unfold left_of in Hf. lia.
Qed.

Lemma where_from_spec : forall (l : list bool) (i : Z),
  Forall (fun j => i <= j < i + Z.of_nat (length l)) (np.where_from i l) /\
  StronglySorted Z.lt (np.where_from i l).
Proof.
  induction l as [| b l IH]; intros i.
  - simpl. split; constructor.
  - destruct (IH (i + 1)) as [Hb Hs].
    assert (Hb' : Forall (fun j => i < j < i + Z.of_nat (length (b :: l)))
                    (np.where_from (i + 1) l)).
    { eapply Forall_impl; [| exact Hb]. intros j Hj.
      cbv beta in Hj |- *. cbn [length]. lia. }
    cbn [np.where_from]. destruct b.
    + split.
      * constructor; [cbn [length]; lia |].
        eapply Forall_impl; [| exact Hb']. intros j Hj. cbv beta in Hj |- *. lia.
      * constructor; [exact Hs |].
        eapply Forall_impl; [| exact Hb']. intros j Hj. cbv beta in Hj |- *. lia.
    + split; [| exact Hs].
      eapply Forall_impl; [| exact Hb']. intros j Hj. cbv beta in Hj |- *. lia.
Qed.

(** In a strictly increasing list of integers the last element is at least
    the first plus the number of elements after it. *)
Lemma sorted_span : forall (l : list Z) (d : Z),
  StronglySorted Z.lt l -> l <> [] ->
  hd d l + Z.of_nat (length l) - 1 <= last l d.
Proof.
  intros l d Hs. induction Hs as [| a l Hs IH Ha]; intros Hne; [contradiction |].
  destruct l as [| b l'].
  - simpl. lia.
  - assert (Hb : hd d (b :: l') + Z.of_nat (length (b :: l')) - 1 <= last (b :: l') d)
      by (apply IH; discriminate).
    inversion Ha as [| ? ? Hab _]; subst.
    change (last (a :: b :: l') d) with (last (b :: l') d).
    cbn [hd length] in *. lia.
Qed.

(** A closed run adds nothing or one frame more than 100 pixels tall, when
    the image is at least as high as the mask has rows. *)
Lemma close_run_tall : forall img binary start i found,
  Z.of_nat (length binary) <= height img ->
  Forall (fun f => 100 < frame_bottom f - frame_top f) found ->
  Forall (fun f => 100 < frame_bottom f - frame_top f)
    (close_run img binary start i found).
Proof.
  intros img binary start i found HH Hfound. unfold close_run. cbv zeta.
  destruct (100 <? i - start); [| exact Hfound].
  set (mask := map _ (np.sum_axis1 (slice_columns binary start i))).
  assert (Hlen : length mask = length binary).
  { unfold mask, np.sum_axis1, slice_columns. rewrite !length_map. reflexivity. }
  destruct (100 <? Z.of_nat (length (np.where_true mask))) eqn:En; [| exact Hfound].
  apply Z.ltb_lt in En.
  apply Forall_app. split; [exact Hfound |]. constructor; [| constructor].
  destruct (where_from_spec mask 0) as [Hb Hs].
  fold (np.where_true mask) in Hb, Hs.
  assert (Hne : np.where_true mask <> [])
    by (intro E; rewrite E in En; simpl in En; lia).
  pose proof (sorted_span (np.where_true mask) 0 Hs Hne) as Hspan.
  assert (Hhd : 0 <= hd 0 (np.where_true mask)).
  { destruct (np.where_true mask) as [| x xs]; [contradiction |].
    inversion Hb; subst. simpl. lia. }
  assert (Hlast : last (np.where_true mask) 0 < Z.of_nat (length binary)).
  { rewrite <- Hlen. rewrite Forall_forall in Hb.
    destruct (exists_last Hne) as (l' & x & E). rewrite E, last_last.
    assert (Hin : In x (np.where_true mask)) by (rewrite E; apply in_or_app; right; left; reflexivity).
    specialize (Hb x Hin). lia. }
  match goal with
  | |- _ < frame_bottom (?l, ?t, ?r, ?b) - frame_top _ =>
      destruct (frame_edges l t r b) as (_ & Et & _ & Eb); rewrite Et, Eb
  end.
  lia.
Qed.

Lemma scan_columns_tall : forall img binary rows (cs : list (Z * Z)) (st : scan_state),
  Z.of_nat (length binary) <= height img ->
  Forall (fun f => 100 < frame_bottom f - frame_top f) (frames st) ->
  Forall (fun f => 100 < frame_bottom f - frame_top f)
    (frames (fold_left (scan_column img binary rows) cs st)).
Proof.
  intros img binary rows cs. induction cs as [| [i c] cs IH]; intros st HH Hst.
  - exact Hst.
  - cbn [fold_left]. apply IH; [exact HH |].
    unfold scan_column.
    destruct ((rows <? 10 * c) && negb (in_frame st)); [exact Hst |].
    destruct ((10 * c <=? rows) && in_frame st); [| exact Hst].
    cbn [frames]. apply close_run_tall; assumption.
Qed.

(** X9. On a well-formed image every frame the detector returns is more
    than 100 pixels tall as well: [bottom - top > 100]. *)
Theorem detected_frames_are_tall : forall (alloc : Z -> bool) (img : image),
  wf_image img = true ->
  Forall (fun f => 100 < frame_bottom f - frame_top f) (detect_film_frames alloc img).
Proof.
  intros alloc img Hwf. unfold detect_film_frames, detect_body.
  destruct (np.array alloc (ImageOps.grayscale img)) as [img_array | e] eqn:Ea;
    [| constructor].
  cbn [bind]. cbv zeta.
  apply scan_columns_tall; [| constructor].
  rewrite length_map.
  unfold np.array in Ea. destruct (alloc _); [| discriminate].
  injection Ea as Ea. subst img_array.
  unfold ImageOps.grayscale, Image.convert_L. cbn [im_data].
  rewrite !length_map.
  destruct (wf_image_inv img Hwf) as [Hh _].
  unfold wf_image in Hwf.
  repeat (apply andb_true_iff in Hwf; destruct Hwf as [Hwf ?]).
  apply Z.leb_le in H1. lia.
Qed.

Lemma detected_frames_are_tall_witness :
  wf_image (band_short_of_edge 120 160 120 0 255) = true /\
  Forall (fun f => 100 < frame_bottom f - frame_top f)
    (detect_film_frames (fun _ => true) (band_short_of_edge 120 160 120 0 255)).
Proof.
  split.
  - vm_compute. reflexivity.
  - apply (detected_frames_are_tall (fun _ => true)
             (band_short_of_edge 120 160 120 0 255)).
    vm_compute. reflexivity.
Defined.

(** A column loop that only meets inactive columns outside a run changes
    nothing. *)
Lemma scan_inactive_columns : forall img binary rows (cs : list Z) (i : Z) (st : scan_state),
  Forall (fun c => 10 * c <= rows) cs ->
  in_frame st = false ->
  fold_left (scan_column img binary rows) (enumerate_from i cs) st = st.
Proof.
  intros img binary rows cs. induction cs as [| c cs IH]; intros i st H Hin.
  - reflexivity.
  - inversion H as [| ? ? Hc Hcs]; subst.
    cbn [enumerate_from fold_left].
    assert (E : scan_column img binary rows st (i, c) = st).
    { unfold scan_column. rewrite Hin.
      replace (rows <? 10 * c) with false by (symmetry; apply Z.ltb_ge; exact Hc).
      rewrite andb_false_r. reflexivity. }
    rewrite E. apply IH; assumption.
Qed.

(** A mask without a bright pixel has no bright pixel in any column. *)
Lemma sum_axis0_dark : forall (w : nat) (binary : list (list bool)),
  Forall (Forall (fun b => b = false)) binary ->
  Forall (fun c => c = 0) (np.sum_axis0 w binary).
Proof.
  intros w binary H. unfold np.sum_axis0.
  induction H as [| row binary Hrow Hbin IH]; cbn [fold_right].
  - clear. induction w; simpl; constructor; auto.
  - revert IH. generalize (fold_right
      (fun (row0 : list bool) (acc : list Z) =>
         Image.zip_with (fun (b : bool) (c : Z) => if b then 1 + c else c) row0 acc)
      (repeat 0 w) binary).
    intros acc Hacc. revert acc Hacc.
    induction Hrow as [| b row Hb Hrow IHrow]; intros acc Hacc.
    + constructor.
    + destruct acc as [| c acc]; [constructor |].
      inversion Hacc; subst. cbn [Image.zip_with]. constructor; [reflexivity |].
      apply IHrow. assumption.
Qed.

(** X10. A solid image, dark or bright, has no frame: for every mode, size
    and level the detector returns the empty list on [Image.new]. *)
Theorem solid_image_has_no_frame :
  forall (alloc : Z -> bool) (m : mode) (w h v : Z),
    detect_film_frames alloc (Image.new m w h v) = [].
Proof.
  intros alloc m w h v. unfold detect_film_frames, detect_body.
  destruct (np.array alloc (ImageOps.grayscale (Image.new m w h v)))
    as [img_array | e] eqn:Ea; [| reflexivity].
  cbn [bind]. cbv zeta.
  set (u := Image.luma m (repeat v (bands m))).
  assert (Earr : img_array = repeat (repeat u (Z.to_nat w)) (Z.to_nat h)).
  { unfold np.array in Ea. destruct (alloc _); [| discriminate].
    injection Ea as Ea. subst img_array.
    unfold ImageOps.grayscale, Image.convert_L, Image.new. cbn [im_data im_mode].
    rewrite !map_repeat. reflexivity. }
  set (t := np.floor_threshold _ _ _).
  assert (Hdark : Forall (Forall (fun b => b = false))
                    (map (map (fun x => t <? x)) img_array)).
  { rewrite Earr, !map_repeat.
    destruct (Z.eq_dec (np.size img_array) 0) as [E0 | E0].
    - rewrite Earr, np_size_repeat, repeat_length in E0.
      destruct (Z.to_nat h) as [| h']; [constructor |].
      destruct (Z.to_nat w) as [| w']; [| lia].
      apply Forall_forall. intros row Hrow. apply repeat_spec in Hrow. subst row.
      constructor.
    - assert (Et : (t <? u) = false).
      { unfold t. rewrite floor_threshold_array by exact E0.
        unfold np.above_mean_plus_half_std.
        replace (np.sum img_array <? np.size img_array * u) with false;
          [reflexivity |].
        symmetry. apply Z.ltb_ge.
        rewrite Earr, np_sum_repeat, np_size_repeat, row_fold_add_repeat, repeat_length.
        lia. }
      rewrite Et.
      apply Forall_forall. intros row Hrow. apply repeat_spec in Hrow. subst row.
      apply Forall_forall. intros b Hb. apply repeat_spec in Hb. exact Hb. }
  unfold enumerate. rewrite scan_inactive_columns; [reflexivity | | reflexivity].
  eapply Forall_impl; [| apply sum_axis0_dark; exact Hdark].
  intros c Hc. cbv beta in Hc. subst c. lia.
Qed.

(** ** The queue and its worker *)

Lemma update_queue_display_queue : forall a : app,
  scan_queue (update_queue_display a) = scan_queue a.
Proof.
  intros a. unfold update_queue_display.
  destruct ((0 <? _)%nat && _); reflexivity.
Qed.

Lemma add_to_queue_cases :
  forall dir_exists create makedirs now (a : app),
    let r := add_to_queue dir_exists create makedirs now a in
    (fst r = Added /\
     scan_queue (snd r) = scan_queue a ++ [mkItem (vars a) now] /\
     valid_job (mkItem (vars a) now)) \/
    (fst r <> Added /\ snd r = a).
Proof.
  intros dir_exists create makedirs now a r. subst r. unfold add_to_queue.
  destruct (resolution (vars a) <? 75) eqn:E1;
    [right; split; [discriminate | reflexivity] |].
  destruct (6400 <? resolution (vars a)) eqn:E2;
    [right; split; [discriminate | reflexivity] |].
  apply Z.ltb_ge in E1. apply Z.ltb_ge in E2. cbn [orb].
  assert (V : valid_job (mkItem (vars a) now)) by (unfold valid_job; simpl; lia).
  destruct dir_exists; cbn [negb].
  - left. cbn [fst snd]. rewrite update_queue_display_queue. auto.
  - destruct create; cbn [negb];
      [| right; split; [discriminate | reflexivity]].
    destruct makedirs as [u | e];
      [| right; split; [discriminate | reflexivity]].
    left. cbn [fst snd]. rewrite update_queue_display_queue. auto.
Qed.

Lemma update_queue_display_fields : forall a : app,
  queue_processing (update_queue_display a) = queue_processing a /\
  scanned_images (update_queue_display a) = scanned_images a /\
  auto_increment (update_queue_display a) = auto_increment a /\
  scan_counter (update_queue_display a) = scan_counter a.
Proof.
  intros a. unfold update_queue_display.
  destruct ((0 <? _)%nat && _); repeat split.
Qed.

(** X11. [add_to_queue] only ever appends: the queue before the call is a
    prefix of the queue after it, and the call reports [Added] exactly when
    one item was appended, a snapshot of the settings of that moment with a
    resolution between 75 and 6400; otherwise nothing at all changes. *)
Theorem add_to_queue_appends_snapshot :
  forall dir_exists create makedirs now (a : app),
    let r := add_to_queue dir_exists create makedirs now a in
    (fst r = Added /\
     scan_queue (snd r) = scan_queue a ++ [mkItem (vars a) now] /\
     valid_job (mkItem (vars a) now)) \/
    (fst r <> Added /\ snd r = a).
Proof. exact add_to_queue_cases. Qed.

Lemma running_step_valid : forall (a : app) (ev : running_event),
  Forall valid_job (scan_queue a) ->
  Forall valid_job (scan_queue (running_step a ev)).
Proof.
  intros a ev H.
  destruct ev as [| dir_exists create makedirs stamp | confirmed | | v | |];
    cbn [running_step].
  - destruct (process_queue_btn a); [| exact H].
    unfold process_queue. destruct (scan_queue a) eqn:E; [rewrite E; exact H |].
    destruct (negb (scanner_ready a)); [rewrite E; exact H |].
    cbn [scan_queue set_workers set_process_queue_btn set_queue_paused
         set_queue_processing]. rewrite E. exact H.
  - destruct (add_to_queue_cases dir_exists create makedirs stamp a)
      as [(_ & Eq & V) | (_ & Eq)]; rewrite Eq; [| exact H].
    apply Forall_app. split; [exact H | constructor; [exact V | constructor]].
  - unfold clear_queue. destruct (scan_queue a) eqn:E; [rewrite E; exact H |].
    destruct confirmed; [| rewrite E; exact H].
    rewrite update_queue_display_queue. constructor.
  - exact H.
  - exact H.
  - rewrite update_queue_display_queue. exact H.
  - cbn [scan_queue set_scan_queue].
    destruct (scan_queue a) as [| q rest]; [constructor |].
    inversion H; assumption.
Qed.

(** X12. Every job in the queue has a resolution between 75 and 6400: this
    holds of the empty queue and is kept by every action of the operator
    and every pop of the worker. *)
Theorem queued_jobs_have_valid_resolution :
  forall (evs : list running_event) (a : app),
    Forall valid_job (scan_queue a) ->
    Forall valid_job (scan_queue (running evs a)).
Proof.
  intros evs. unfold running.
  induction evs as [| ev evs IH]; intros a H; cbn [fold_left].
  - exact H.
  - apply IH. apply running_step_valid. exact H.
Qed.

Lemma queued_jobs_have_valid_resolution_witness :
  Forall valid_job
    (scan_queue
       (running [ChangeSettings (set_resolution 50 default_vars);
                 ClickAddToQueue true true (Ok tt) "10:00:05";
                 ChangeSettings (set_resolution 600 default_vars);
                 ClickAddToQueue true true (Ok tt) "10:00:06"]
          (init_app true))).
Proof.
  apply (queued_jobs_have_valid_resolution
           [ChangeSettings (set_resolution 50 default_vars);
            ClickAddToQueue true true (Ok tt) "10:00:05";
            ChangeSettings (set_resolution 600 default_vars);
            ClickAddToQueue true true (Ok tt) "10:00:06"]
           (init_app true)).
  simpl. constructor.
Defined.

Lemma records_since_refl : forall a : app, records_since a a.
Proof.
  intros a. exists []. rewrite app_nil_r. repeat split; try lia.
  intros _. simpl. lia.
Qed.

Lemma records_since_trans : forall a b c : app,
  records_since a b -> records_since b c -> records_since a c.
Proof.
  intros a b c (n1 & E1 & A1 & C1 & I1) (n2 & E2 & A2 & C2 & I2).
  exists (n1 ++ n2). rewrite E2, E1, app_assoc.
  repeat split; try congruence; try lia.
  intros Ha. specialize (I1 Ha). rewrite A1 in I2. specialize (I2 Ha).
  rewrite length_app. lia.
Qed.

(** Generating a name and recording the file written under it. *)
Lemma generate_and_record : forall now (a : app),
  records_since a (snd (generate_filename now a)) /\
  records_since a
    (set_scanned_images
       (scanned_images (snd (generate_filename now a))
        ++ [fst (generate_filename now a)])
       (snd (generate_filename now a))).
Proof.
  intros now a. unfold generate_filename.
  destruct (auto_increment a) eqn:E; cbn [fst snd].
  - split.
    + exists []. cbn [scanned_images auto_increment scan_counter set_scan_counter length].
      rewrite app_nil_r. split; [reflexivity |]. split; [reflexivity |].
      split; [lia | intros _; lia].
    + eexists [_].
      cbn [scanned_images auto_increment scan_counter set_scan_counter
           set_scanned_images length].
      split; [reflexivity |]. split; [reflexivity |].
      split; [lia | intros _; lia].
  - split.
    + apply records_since_refl.
    + eexists [_].
      cbn [scanned_images auto_increment scan_counter set_scanned_images length].
      split; [reflexivity |]. split; [reflexivity |].
      split; [lia | intros H; rewrite E in H; discriminate H].
Qed.

Lemma _save_frames_sync_records : forall w found (a : app),
  records_since a (snd (_save_frames_sync w found a)).
Proof.
  intros w found. induction found as [| f rest IH]; intros a; cbn [_save_frames_sync].
  - apply records_since_refl.
  - destruct (generate_and_record (now w) a) as [R1 R2].
    destruct (generate_filename (now w) a) as [filename a1]. cbn [fst snd] in *.
    destruct (writable w filename); cbn [snd].
    + eapply records_since_trans; [exact R2 | apply IH].
    + exact R1.
Qed.

Lemma _do_scan_from_queue_records : forall w q (a : app),
  records_since a (snd (_do_scan_from_queue w q a)).
Proof.
  intros w q a. unfold _do_scan_from_queue.
  destruct (acquire w q) as [image0 | e]; [| apply records_since_refl].
  destruct (_apply_transforms_from_queue w image0 q) as [img | e];
    [| apply records_since_refl].
  destruct (if auto_detect (item q) then detect_film_frames (alloc w) img else [])
    as [| f found].
  - destruct (generate_and_record (now w) a) as [R1 R2].
    destruct (generate_filename (now w) a) as [filename a1]. cbn [fst snd] in *.
    destruct (writable w filename); cbn [snd]; assumption.
  - pose proof (_save_frames_sync_records w (f :: found) a) as R.
    destruct (_save_frames_sync w (f :: found) a) as [[u | e] a1]; exact R.
Qed.

Lemma records_since_fields : forall (a b b' : app),
  records_since a b ->
  scanned_images b' = scanned_images b ->
  auto_increment b' = auto_increment b ->
  scan_counter b' = scan_counter b ->
  records_since a b'.
Proof.
  intros a b b' (n & E & A & C & I) Hs Ha Hc.
  exists n. rewrite Hs, Ha, Hc. auto.
Qed.

(** The loop of the worker: it removes a prefix of the queue, one job for
    every scan that succeeded, and counts one more when it stops on a
    failure. *)
Lemma worker_loop_spec : forall w (queue : list queue_item) (completed : Z) (a : app),
  scan_queue a = queue ->
  let r := worker_loop w queue completed a in
  records_since a (snd r) /\
  exists done,
    queue = done ++ scan_queue (snd r) /\
    (fst r = completed + Z.of_nat (length done) \/
     (fst r = completed + Z.of_nat (length done) + 1 /\ scan_queue (snd r) <> [])).
Proof.
  intros w queue. induction queue as [| q rest IH]; intros completed a Hq.
  - cbn [worker_loop fst snd]. split; [apply records_since_refl |].
    exists []. rewrite Hq. split; [reflexivity | left; simpl; lia].
  - cbn [worker_loop].
    destruct (negb (queue_processing a)).
    + cbn [fst snd]. split; [apply records_since_refl |].
      exists []. rewrite Hq. split; [reflexivity | left; simpl; lia].
    + pose proof (_do_scan_from_queue_records w q (_apply_queue_settings q a)) as R.
      destruct (_do_scan_from_queue_queue w q (_apply_queue_settings q a)) as [Q _].
      destruct (_do_scan_from_queue w q (_apply_queue_settings q a)) as [[u | e] a1].
      * cbn [snd] in R, Q.
        destruct (IH (completed + 1) (set_scan_queue rest a1) eq_refl) as (R' & done & E & C).
        split.
        -- eapply records_since_trans; [| exact R'].
           eapply records_since_fields; [exact R | reflexivity ..].
        -- exists (q :: done). split; [cbn [List.app]; f_equal; exact E |].
           cbn [length]. destruct C as [C | [C N]]; [left | right; split; [| exact N]];
             rewrite C; lia.
      * cbn [fst snd] in *. split; [exact R |].
        exists []. cbn [List.app length].
        rewrite Q. cbn. rewrite Hq.
        split; [reflexivity |]. right. split; [lia | discriminate].
Qed.

(** X13. The worker takes jobs from the head of the queue in order and
    touches no other job: what is left of the queue is a suffix of what it
    was.  The count it reports is the number of jobs removed, or one more
    when it stopped on a job that failed, which is then still at the head.
    When it is done the running flag is down. *)
Theorem worker_consumes_a_prefix :
  forall (w : world) (a : app),
    let r := _process_queue_thread w a in
    queue_processing (snd r) = false /\
    exists done,
      scan_queue a = done ++ scan_queue (snd r) /\
      (fst r = Z.of_nat (length done) \/
       (fst r = Z.of_nat (length done) + 1 /\ scan_queue (snd r) <> [])).
Proof.
  intros w a r. subst r. unfold _process_queue_thread.
  destruct (worker_loop_spec w (scan_queue a) 0 a eq_refl) as (_ & done & E & C).
  destruct (worker_loop w (scan_queue a) 0 a) as [completed a1].
  cbn [fst snd] in *. unfold _queue_complete.
  rewrite update_queue_display_queue.
  split.
  - match goal with
    | |- queue_processing (update_queue_display ?x) = _ =>
        destruct (update_queue_display_fields x) as (P & _); rewrite P
    end.
    reflexivity.
  - exists done. cbn [scan_queue set_process_queue_btn set_queue_processing set_workers].
    split; [exact E | exact C].
Qed.

(** X14. The record of written files is append-only and the counter never
    goes back: after a run of the worker, the files recorded before are
    still there, in order, in front of the new ones, and with auto-increment
    on the counter has advanced at least once for every file added. *)
Theorem worker_only_appends_records :
  forall (w : world) (a : app),
    records_since a (snd (_process_queue_thread w a)).
Proof.
  intros w a. unfold _process_queue_thread.
  destruct (worker_loop_spec w (scan_queue a) 0 a eq_refl) as (R & _).
  destruct (worker_loop w (scan_queue a) 0 a) as [completed a1].
  cbn [fst snd] in *.
  unfold _queue_complete.
  match goal with
  | |- records_since _ (update_queue_display ?x) =>
      destruct (update_queue_display_fields x) as (_ & S & A & C)
  end.
  eapply records_since_fields; [exact R | rewrite S | rewrite A | rewrite C];
    reflexivity.
Qed.

(** ** Writing the frames of a sheet *)

Lemma names_from_snoc_state : forall (a : app) (name : string) (names : list string)
    (c : N) (n : nat),
  set_scanned_images
    ((scanned_images a ++ [name]) ++ names)
    (set_scan_counter (c + 1 + N.of_nat n)
       (set_scanned_images (scanned_images a ++ [name]) (set_scan_counter (c + 1) a)))
  = set_scanned_images (scanned_images a ++ name :: names)
      (set_scan_counter (c + N.of_nat (S n)) a).
Proof.
  intros [v ai sc si sq qp qpa sr btn wk] name names c n.
  unfold set_scanned_images, set_scan_counter.
  cbn [vars auto_increment scan_counter scanned_images scan_queue queue_processing
       queue_paused scanner_ready process_queue_btn workers].
  rewrite <- app_assoc. cbn [List.app].
  replace (c + 1 + N.of_nat n)%N with (c + N.of_nat (S n))%N by lia.
  reflexivity.
Qed.

(** X15. When every file can be written and auto-increment is on, saving
    the frames of a sheet writes one file per frame: the names are those of
    the counter values [c], [c + 1], ... in the order of the frames, they
    are appended to the record of written files, and the counter ends
    higher by the number of frames. *)
Theorem frames_are_saved_one_file_each :
  forall (w : world) (found : list frame) (a : app),
    auto_increment a = true ->
    (forall name, writable w name = true) ->
    _save_frames_sync w found a
    = (Ok tt,
       set_scanned_images
         (scanned_images a
          ++ names_from (scan_counter a)
               (repeat (file_format (vars a)) (length found)))
         (set_scan_counter (scan_counter a + N.of_nat (length found)) a)).
Proof.
  intros w found. induction found as [| f rest IH]; intros a Ha Hw.
  - cbn [_save_frames_sync length repeat names_from]. f_equal.
    destruct a. unfold set_scanned_images, set_scan_counter. cbn.
    rewrite app_nil_r, N.add_0_r. reflexivity.
  - cbn [_save_frames_sync]. rewrite generate_filename_auto by exact Ha.
    rewrite Hw. rewrite IH by (exact Ha || exact Hw).
    f_equal. cbn [length repeat names_from].
    cbn [scanned_images scan_counter vars set_scanned_images set_scan_counter].
    apply names_from_snoc_state.
Qed.

Lemma frames_are_saved_one_file_each_witness :
  scanned_images
    (snd (_save_frames_sync world_speck [(0, 0, 5, 5); (5, 0, 9, 5)] (init_app true)))
  = ["film_scan_0001.tif"; "film_scan_0002.tif"]%string.
Proof.
  rewrite (frames_are_saved_one_file_each world_speck [(0, 0, 5, 5); (5, 0, 9, 5)]
             (init_app true)).
  - reflexivity.
  - reflexivity.
  - intros name. reflexivity.
Defined.

Lemma set_scanned_images_no_counter : forall (a : app) (name : string) (names : list string),
  set_scanned_images ((scanned_images a ++ [name]) ++ names)
    (set_scanned_images (scanned_images a ++ [name]) a)
  = set_scanned_images (scanned_images a ++ name :: names) a.
Proof.
  intros [v ai sc si sq qp qpa sr btn wk] name names.
  unfold set_scanned_images. cbn. rewrite <- app_assoc. reflexivity.
Qed.

(** X16. With auto-increment off the name comes from the clock alone and
    the counter is not touched: while the clock reads the same, all the
    frames of a sheet are written under one and the same name, each
    replacing the one before. *)
Theorem timestamp_names_collide :
  forall (w : world) (found : list frame) (a : app),
    auto_increment a = false ->
    (forall name, writable w name = true) ->
    _save_frames_sync w found a
    = (Ok tt,
       set_scanned_images
         (scanned_images a
          ++ repeat (fst (generate_filename (now w) a)) (length found)) a).
Proof.
  intros w found. induction found as [| f rest IH]; intros a Ha Hw.
  - cbn [_save_frames_sync length repeat]. f_equal.
    destruct a. unfold set_scanned_images. cbn. rewrite app_nil_r. reflexivity.
  - cbn [_save_frames_sync].
    assert (G : forall b, auto_increment b = false ->
                  generate_filename (now w) b
                  = (("film_scan_" ++ now w ++ "." ++ ext_map (file_format (vars b)))%string,
                     b)).
    { intros b Hb. unfold generate_filename. rewrite Hb. reflexivity. }
    rewrite (G a Ha). rewrite Hw. rewrite IH by (exact Ha || exact Hw).
    f_equal. rewrite (G (set_scanned_images _ a) Ha). cbn [fst length repeat].
    cbn [scanned_images vars set_scanned_images].
    apply set_scanned_images_no_counter.
Qed.

Lemma timestamp_names_collide_witness :
  scanned_images
    (snd (_save_frames_sync world_speck [(0, 0, 5, 5); (5, 0, 9, 5)]
            (mkApp default_vars false 1%N [] [] false false true NORMAL 0)))
  = ["film_scan_20240101_100000.tif"; "film_scan_20240101_100000.tif"]%string.
Proof.
  rewrite (timestamp_names_collide world_speck [(0, 0, 5, 5); (5, 0, 9, 5)]
             (mkApp default_vars false 1%N [] [] false false true NORMAL 0)).
  - reflexivity.
  - reflexivity.
  - intros name. reflexivity.
Defined.



(** ** Counter names *)

Lemma string_app_inv_head : forall s t1 t2 : string,
  (s ++ t1 = s ++ t2)%string -> t1 = t2.
Proof.
  induction s as [| c s IH]; intros t1 t2 H; simpl in H.
  - exact H.
  - injection H as H. apply IH. exact H.
Qed.

Lemma ext_map_inj : forall f1 f2, ext_map f1 = ext_map f2 -> f1 = f2.
Proof. intros [] [] H; try reflexivity; discriminate H. Qed.

(** X18. A counter name can be read back: the number after ["film_scan_"]
    is the counter it was made from, for every counter value, also beyond
    four digits; and two counter names are equal only if both the counter
    and the file format are. *)
Theorem counter_name_round_trip :
  forall (c : N) (f : file_format_t),
    name_number (counter_name c f) = Some c /\
    (forall c' f', counter_name c f = counter_name c' f' -> c = c' /\ f = f').
Proof.
  intros c f. split; [apply name_number_counter_name |].
  intros c' f' H.
  assert (Ec : c = c').
  { assert (E : name_number (counter_name c f) = name_number (counter_name c' f'))
      by (rewrite H; reflexivity).
    rewrite !name_number_counter_name in E. congruence. }
  split; [exact Ec |]. subst c'.
  unfold counter_name in H.
  apply string_app_inv_head in H. apply string_app_inv_head in H.
  apply (string_app_inv_head ".") in H. apply ext_map_inj. exact H.
Qed.

(** ** The start button after a run *)

(** X19. When the worker is done the start button is enabled again whether
    or not jobs are left: [update_queue_display] sets it from the running
    flag alone.  With an empty queue a click on it then changes nothing. *)
Theorem start_button_after_run :
  forall (w : world) (a : app),
    let a' := snd (_process_queue_thread w a) in
    process_queue_btn a' = NORMAL /\
    (scan_queue a' = [] -> running [ClickProcessQueue] a' = a').
Proof.
  intros w a a'.
  assert (B : process_queue_btn a' = NORMAL).
  { subst a'. unfold _process_queue_thread.
    destruct (worker_loop w (scan_queue a) 0 a) as [completed a1].
    cbn [snd]. unfold _queue_complete, update_queue_display.
    cbn [queue_processing set_process_queue_btn set_queue_processing negb].
    destruct (_ && _); reflexivity. }
  split; [exact B |].
  intros E. unfold running. cbn [fold_left running_step].
  rewrite B. unfold process_queue. rewrite E. reflexivity.
Qed.

(** ** The buttons of the preview *)

Lemma geometry_only_pipeline :
  forall (rot : image -> Z -> image) (v : settings) (img : image),
    apply_all_transforms rot (geometry_only v) img
    = let i1 := if negb (rotation_angle v =? 0)
                then rot img (- rotation_angle v) else img in
      let i2 := if flip_horizontal v then ImageOps.mirror i1 else i1 in
      if flip_vertical v then ImageOps.flip i2 else i2.
Proof.
  intros rot v img. unfold apply_all_transforms, copy. cbv zeta.
  cbn [geometry_only rotation_angle flip_horizontal flip_vertical].
  set (pre := if flip_vertical v then _ else _).
  change (apply_adjustments (geometry_only v) pre = pre). reflexivity.
Qed.

(** X20. The flip buttons mirror what the pipeline shows: with the
    adjustments at their identity values, whatever the rotation and the
    flips already set, the pipeline after [flip_h] gives the left-right
    mirror image of what it gave before, and after [flip_v] the upside-down
    image. *)
Theorem flip_buttons_mirror_the_result :
  forall (rot : image -> Z -> image) (v : settings) (img : image),
    apply_all_transforms rot (flip_h (geometry_only v)) img
    = ImageOps.mirror (apply_all_transforms rot (geometry_only v) img) /\
    apply_all_transforms rot (flip_v (geometry_only v)) img
    = ImageOps.flip (apply_all_transforms rot (geometry_only v) img).
Proof.
  intros rot v img.
  assert (H : flip_h (geometry_only v)
              = geometry_only (set_flip_horizontal (negb (flip_horizontal v)) v))
    by reflexivity.
  assert (V : flip_v (geometry_only v)
              = geometry_only (set_flip_vertical (negb (flip_vertical v)) v))
    by reflexivity.
  rewrite H, V, !geometry_only_pipeline. cbv zeta.
  cbn [set_flip_horizontal set_flip_vertical rotation_angle flip_horizontal
       flip_vertical].
  set (r := if negb (rotation_angle v =? 0) then _ else _).
  split.
  - destruct (flip_horizontal v), (flip_vertical v); cbn [negb].
    + rewrite mirror_flip_commute, mirror_mirror. reflexivity.
    + rewrite mirror_mirror. reflexivity.
    + rewrite mirror_flip_commute. reflexivity.
    + reflexivity.
  - destruct (flip_horizontal v), (flip_vertical v); cbn [negb].
    + rewrite flip_flip. reflexivity.
    + reflexivity.
    + rewrite flip_flip. reflexivity.
    + reflexivity.
Qed.

(** X21. [reset_adjustments] undoes every adjustment and nothing else:
    whatever the settings were, after it the pipeline returns the image it
    is given, the resolution, the colour mode, the file format and the
    auto-detect switch are as before, and a second reset changes nothing. *)
Theorem reset_adjustments_restores_identity :
  forall (rot : image -> Z -> image) (v : settings) (img : image),
    apply_all_transforms rot (reset_adjustments v) img = img /\
    resolution (reset_adjustments v) = resolution v /\
    color_mode (reset_adjustments v) = color_mode v /\
    file_format (reset_adjustments v) = file_format v /\
    auto_detect (reset_adjustments v) = auto_detect v /\
    reset_adjustments (reset_adjustments v) = reset_adjustments v.
Proof.
  intros rot v img. repeat split.
Qed.

(** ** The settings of a queued job *)

Lemma generate_filename_vars : forall now (a : app),
  vars (snd (generate_filename now a)) = vars a.
Proof.
  intros now a. unfold generate_filename.
  destruct (auto_increment a); reflexivity.
Qed.

Lemma _save_frames_sync_vars : forall w found (a : app),
  vars (snd (_save_frames_sync w found a)) = vars a.
Proof.
  intros w found. induction found as [| f rest IH]; intros a; cbn [_save_frames_sync].
  - reflexivity.
  - pose proof (generate_filename_vars (now w) a) as G.
    destruct (generate_filename (now w) a) as [filename a1]. cbn [snd] in G.
    destruct (writable w filename); cbn [snd].
    + rewrite IH. exact G.
    + exact G.
Qed.

(** A queued scan does not touch the settings of the window. *)
Lemma _do_scan_from_queue_vars : forall w q (a : app),
  vars (snd (_do_scan_from_queue w q a)) = vars a.
Proof.
  intros w q a. unfold _do_scan_from_queue.
  destruct (acquire w q) as [image0 | e]; [| reflexivity].
  destruct (_apply_transforms_from_queue w image0 q) as [img | e]; [| reflexivity].
  destruct (if auto_detect (item q) then detect_film_frames (alloc w) img else [])
    as [| f found].
  - pose proof (generate_filename_vars (now w) a) as G.
    destruct (generate_filename (now w) a) as [filename a1]. cbn [snd] in G.
    destruct (writable w filename); exact G.
  - pose proof (_save_frames_sync_vars w (f :: found) a) as G.
    destruct (_save_frames_sync w (f :: found) a) as [[u | e] a1]; exact G.
Qed.

(** The loop of the worker leaves in the window the settings of the job it
    counted last. *)
Lemma worker_loop_settings : forall w (queue : list queue_item) (completed : Z) (a : app),
  let r := worker_loop w queue completed a in
  (fst r = completed /\ vars (snd r) = vars a) \/
  (completed < fst r /\
   exists q, nth_error queue (Z.to_nat (fst r - completed - 1)) = Some q /\
             vars (snd r) = item q).
Proof.
  intros w queue. induction queue as [| q rest IH]; intros completed a.
  - left. split; reflexivity.
  - cbn [worker_loop].
    destruct (negb (queue_processing a)); [left; split; reflexivity |].
    pose proof (_do_scan_from_queue_vars w q (_apply_queue_settings q a)) as V.
    destruct (_do_scan_from_queue w q (_apply_queue_settings q a)) as [[u | e] a1];
      cbn [snd] in V.
    + right.
      destruct (IH (completed + 1) (set_scan_queue rest a1)) as [[C Hs] | [C (q' & N & Hs)]].
      * split; [lia |]. exists q. rewrite C.
        replace (completed + 1 - completed - 1) with 0 by lia.
        split; [reflexivity |]. rewrite Hs. exact V.
      * split; [lia |]. exists q'. split; [| exact Hs].
        replace (Z.to_nat (fst (worker_loop w rest (completed + 1) (set_scan_queue rest a1))
                           - completed - 1))
          with (S (Z.to_nat (fst (worker_loop w rest (completed + 1)
                                    (set_scan_queue rest a1))
                             - (completed + 1) - 1))) by lia.
        exact N.
    + right. cbn [fst snd]. split; [lia |]. exists q.
      replace (completed + 1 - completed - 1) with 0 by lia.
      split; [reflexivity | exact V].
Qed.

(** X22. A run of the queue overwrites the settings of the window and does
    not put them back: when the worker has counted [n > 0] jobs, the
    settings shown afterwards are those of the [n]-th job of the queue it
    started with, the last one it attempted; when it counted none, they are
    untouched. *)
Theorem worker_leaves_last_job_settings :
  forall (w : world) (a : app),
    let r := _process_queue_thread w a in
    (fst r = 0 /\ vars (snd r) = vars a) \/
    (0 < fst r /\
     exists q, nth_error (scan_queue a) (Z.to_nat (fst r - 1)) = Some q /\
               vars (snd r) = item q).
Proof.
  intros w a r. subst r. unfold _process_queue_thread.
  pose proof (worker_loop_settings w (scan_queue a) 0 a) as L. cbv zeta in L.
  destruct (worker_loop w (scan_queue a) 0 a) as [completed a1].
  cbn [fst snd] in *.
  assert (E : forall x, vars (_queue_complete x) = vars x).
  { intros x. unfold _queue_complete, update_queue_display.
    destruct ((0 <? _)%nat && _); reflexivity. }
  rewrite E. cbn [vars set_workers set_queue_processing].
  destruct L as [[C S] | [C (q & N & S)]].
  - left. split; assumption.
  - right. split; [lia |]. exists q.
    replace (completed - 1) with (completed - 0 - 1) by lia.
    split; assumption.
Qed.

Lemma string_app_assoc : forall s t u : string,
  ((s ++ t) ++ u = s ++ (t ++ u))%string.
Proof.
  intros s t u. induction s as [| c s IH]; cbn [append].
  - reflexivity.
  - rewrite IH. reflexivity.
Qed.

(** Every generated name has the extension of the format of the window. *)
Lemma generate_filename_ext : forall now (a : app),
  has_ext (file_format (vars a)) (fst (generate_filename now a)).
Proof.
  intros now a. unfold generate_filename, has_ext, counter_name.
  destruct (auto_increment a); cbn [fst].
  - exists ("film_scan_" ++ format_04d (scan_counter a))%string.
    rewrite string_app_assoc. reflexivity.
  - exists ("film_scan_" ++ now)%string.
    rewrite string_app_assoc. reflexivity.
Qed.

Lemma _save_frames_sync_ext : forall w found (a : app),
  exists new_files,
    scanned_images (snd (_save_frames_sync w found a)) = scanned_images a ++ new_files /\
    Forall (has_ext (file_format (vars a))) new_files.
Proof.
  intros w found. induction found as [| f rest IH]; intros a; cbn [_save_frames_sync].
  - exists []. rewrite app_nil_r. split; [reflexivity | constructor].
  - pose proof (generate_filename_ext (now w) a) as X.
    pose proof (generate_filename_vars (now w) a) as G.
    assert (R : scanned_images (snd (generate_filename (now w) a)) = scanned_images a).
    { unfold generate_filename. destruct (auto_increment a); reflexivity. }
    destruct (generate_filename (now w) a) as [filename a1]. cbn [fst snd] in *.
    destruct (writable w filename); cbn [snd].
    + destruct (IH (set_scanned_images (scanned_images a1 ++ [filename]) a1))
        as (n & E & F).
      exists (filename :: n). rewrite E.
      cbn [scanned_images set_scanned_images]. rewrite R, <- app_assoc.
      split; [reflexivity |]. constructor; [exact X |].
      cbn [vars set_scanned_images] in F. rewrite G in F. exact F.
    + exists []. rewrite app_nil_r. split; [exact R | constructor].
Qed.

(** X23. The files of a queued job carry the extension of the job's own
    file format, not that of the format shown when the queue was started:
    the worker applies the settings of the job before the scan, and every
    name recorded by the scan, for the whole image or for its frames, with
    the counter or with the clock, ends in the extension of that format. *)
Theorem queued_job_files_carry_job_format :
  forall (w : world) (q : queue_item) (a : app),
    exists new_files,
      scanned_images (snd (_do_scan_from_queue w q (_apply_queue_settings q a)))
      = scanned_images a ++ new_files /\
      Forall (has_ext (file_format (item q))) new_files.
Proof.
  intros w q a.
  set (b := _apply_queue_settings q a).
  assert (Hv : vars b = item q) by reflexivity.
  assert (Hs : scanned_images b = scanned_images a) by reflexivity.
  rewrite <- Hv, <- Hs. clearbody b. clear Hv Hs.
  unfold _do_scan_from_queue.
  assert (Z0 : exists new_files,
             scanned_images b = scanned_images b ++ new_files /\
             Forall (has_ext (file_format (vars b))) new_files).
  { exists []. rewrite app_nil_r. split; [reflexivity | constructor]. }
  destruct (acquire w q) as [image0 | e]; [| exact Z0].
  destruct (_apply_transforms_from_queue w image0 q) as [img | e]; [| exact Z0].
  destruct (if auto_detect (item q) then detect_film_frames (alloc w) img else [])
    as [| f found].
  - pose proof (generate_filename_ext (now w) b) as X.
    assert (R : scanned_images (snd (generate_filename (now w) b)) = scanned_images b).
    { unfold generate_filename. destruct (auto_increment b); reflexivity. }
    destruct (generate_filename (now w) b) as [filename a1]. cbn [fst snd] in *.
    destruct (writable w filename); cbn [snd].
    + exists [filename]. cbn [scanned_images set_scanned_images]. rewrite R.
      split; [reflexivity | constructor; [exact X | constructor]].
    + exists []. rewrite app_nil_r. split; [exact R | constructor].
  - pose proof (_save_frames_sync_ext w (f :: found) b) as G.
    destruct (_save_frames_sync w (f :: found) b) as [[u | e] a1]; exact G.
Qed.
